(** * hacknhbackend: the [database] package

    A shallow embedding of [src/database/main.go] and the properties of
    its data-access core.

    The package talks to an SQLite file through Go's [database/sql].
    The embedding has three layers:

    - the store: the three course tables as lists of rows in the order
      of a table scan (the order of insertion),
      with the meaning of the SQL statements that occur in the source
      (primary key on [courses.term_crn], AUTOINCREMENT ids, foreign keys
      declared but not enforced, [=] under the BINARY collation, a
      listing of the primary key answered from its index, [LIKE] as
      SQLite evaluates it: on UTF-8 characters, up to the first NUL byte,
      with its wildcards, ASCII case folding and the limit on the length
      of a pattern);
    - the handle: a state and error monad over a [World] that holds the
      store, a log of every statement sent to it, and a fault plan by
      which the environment makes a statement fail (I/O error, lock,
      ...) without effect on the store;
    - the package functions, written in that monad statement by
      statement as in the source.

    Strings are sequences of bytes, as Go strings are. *)

From Stdlib Require Import List String Ascii ZArith NArith Bool Lia.
From Stdlib Require Import Permutation Sorted.
Import ListNotations.
Open Scope string_scope.

(* ================================================================= *)
(** ** Domain types *)

Module courseload.

(** Modelled from the spec: the declarations of package [courseload] are
    not part of the sources at hand.  An instructor has a last name, a
    first name and an email; the field names are those the [database]
    package reads and writes. *)
Record Instructor : Type := mkInstructor
  { LastName : string; FirstName : string; Email : string }.

(** Modelled from the spec: a meeting has days, a building, a room and a
    time, all text. *)
Record Meeting : Type := mkMeeting
  { Days : string; Building : string; Room : string; Time : string }.

(** Modelled from the spec: the data of a course: title, subject, number,
    description, a list of instructors and a list of meetings. *)
Record CourseData : Type := mkCourseData
  { Title : string; Subject : string; Number : string; Description : string;
    Instructors : list Instructor; Meetings : list Meeting }.

(** Modelled from the spec: a course is a CRN and its data. *)
Record Course : Type := mkCourse
  { CRN : string; Data : CourseData }.

End courseload.
Import courseload.

(* ================================================================= *)
(** ** Errors, panics and results *)

Inductive error : Type :=
| ErrNoRows                      (* sql.ErrNoRows *)
| ErrUnique (column : string)    (* UNIQUE constraint failed: <column> *)
| ErrNoColumn (name : string)    (* no such column: <name> *)
| ErrScan                        (* a row does not fit Scan's destinations *)
| ErrNotQueryable (key : string) (* fmt.Errorf("key %s is not queryable", key) *)
| ErrStore (msg : string).       (* any other failure of the store *)

(** A Go run-time panic: [index out of range [index] with length len]. *)
Inductive panic : Type :=
| IndexOutOfRange (index len : nat).

Inductive res (A : Type) : Type :=
| Ok (a : A)
| Fail (e : error)
| Panic (p : panic).
Arguments Ok {A} a.
Arguments Fail {A} e.
Arguments Panic {A} p.

(** A Go slice is nil or allocated; an allocated slice may be empty. *)
Inductive slice (A : Type) : Type :=
| nil_slice
| make (elems : list A).
Arguments nil_slice {A}.
Arguments make {A} elems.

Definition elems {A} (s : slice A) : list A :=
  match s with nil_slice => [] | make l => l end.

Definition append {A} (s : slice A) (x : A) : slice A :=
  make (elems s ++ [x]).

(** [values[i]] on a variadic argument. *)
Definition index (values : list string) (i : nat) : res string :=
  match nth_error values i with
  | Some v => Ok v
  | None => Panic (IndexOutOfRange i (List.length values))
  end.

(* ================================================================= *)
(** ** The store *)

Record course_row : Type := mkCourseRow
  { term_crn : string; title : string; subject_code : string;
    course_number : string; description : string }.

Record instructor_row : Type := mkInstructorRow
  { instructor_id : Z; last_name : string; first_name : string;
    email : string; instructor_crn : string }.

Record meeting_row : Type := mkMeetingRow
  { meeting_id : Z; days : string; building : string; room : string;
    time : string; meeting_crn : string }.

(** The tables in the order of a table scan, which is the order of
    insertion; the two counters are the AUTOINCREMENT
    sequences of [instructors] and [meetings]. *)
Record Store : Type := mkStore
  { courses : list course_row;
    instructors : list instructor_row;
    meetings : list meeting_row;
    seq_instructors : Z;
    seq_meetings : Z }.

Definition empty_store : Store := mkStore [] [] [] 0 0.

(** *** LIKE *)

Definition is_upper (c : ascii) : bool :=
  (65 <=? nat_of_ascii c)%nat && (nat_of_ascii c <=? 90)%nat.

(** SQLite folds the 26 ASCII upper-case letters and nothing else. *)
Definition to_lower (c : ascii) : ascii :=
  if is_upper c then ascii_of_nat (nat_of_ascii c + 32) else c.

Definition percent : ascii := "%"%char.
Definition underscore : ascii := "_"%char.

(** The text of a value as [LIKE] reads it: a C string, which ends at
    the first NUL byte. *)
Fixpoint c_string (s : string) : string :=
  match s with
  | EmptyString => EmptyString
  | String c s' =>
      if Ascii.eqb c Ascii.zero then EmptyString else String c (c_string s')
  end.

Definition byte (c : ascii) : N := N_of_ascii c.

(** [sqlite3Utf8Trans1], on a lead byte [0xc0 <= b]. *)
Definition sqlite3Utf8Trans1 (b : N) : N :=
  (if b <? 224 then b - 192
   else if b <? 240 then b - 224
   else if b <? 248 then b - 240
   else if b <? 252 then b - 248
   else if b <? 254 then b - 252
   else 0)%N.

(** [(b & 0xc0) == 0x80] *)
Definition is_continuation (b : N) : bool := (N.land b 192 =? 128)%N.

(** [c = (c << 6) + (0x3f & b)] on an [unsigned int]. *)
Definition utf8_accumulate (c b : N) : N :=
  ((N.shiftl c 6 + N.land 63 b) mod 2 ^ 32)%N.

(** The end of [sqlite3Utf8Read]: what is not a character becomes
    [0xFFFD]. *)
Definition utf8_fixup (c : N) : N :=
  (if (c <? 128) || (N.land c 4294965248 =? 55296)
      || (N.land c 4294967294 =? 65534)
   then 65533 else c)%N.

Definition utf8_flush (pending : option N) : list N :=
  match pending with
  | Some c => [utf8_fixup c]
  | None => []
  end.

(** The characters [Utf8Read] reads off a C string, one after the other:
    a byte below [0xc0] is a character; a lead byte takes every
    continuation byte that follows it.  [pending] is the character begun
    by a lead byte. *)
Fixpoint utf8_chars (pending : option N) (s : string) : list N :=
  match s with
  | EmptyString => utf8_flush pending
  | String a s' =>
      let b := byte a in
      match pending with
      | Some c =>
          if is_continuation b then utf8_chars (Some (utf8_accumulate c b)) s'
          else if (192 <=? b)%N
               then utf8_fixup c :: utf8_chars (Some (sqlite3Utf8Trans1 b)) s'
               else utf8_fixup c :: b :: utf8_chars None s'
      | None =>
          if (192 <=? b)%N then utf8_chars (Some (sqlite3Utf8Trans1 b)) s'
          else b :: utf8_chars None s'
      end
  end.

Definition characters (s : string) : list N := utf8_chars None (c_string s).

(** [sqlite3Tolower] on a character below [0x80]. *)
Definition lower_char (c : N) : N :=
  (if (65 <=? c) && (c <=? 90) then c + 32 else c)%N.

(** A character of the pattern that is no wildcard against a character
    of the text: equal, or both ASCII and equal up to case. *)
Definition same_char (c c2 : N) : bool :=
  ((c =? c2)
   || ((c <? 128) && (c2 <? 128) && (lower_char c =? lower_char c2)))%N.

(** [patternCompare] for [LIKE]: [%] stands for any run of characters,
    [_] for any one character, every other character for itself up to
    ASCII case; there is no escape character. *)
Fixpoint pattern_match (p : list N) : list N -> bool :=
  match p with
  | [] => fun t => match t with [] => true | _ :: _ => false end
  | c :: p' =>
      if (c =? 37)%N then
        fix skip (t : list N) : bool :=
          pattern_match p' t
          || match t with [] => false | _ :: t' => skip t' end
      else
        fun t =>
          match t with
          | [] => false
          | c2 :: t' =>
              ((c =? 95)%N || same_char c c2) && pattern_match p' t'
          end
  end.

(** [like p t]: text [t] matches pattern [p]. *)
Definition like (p t : string) : bool :=
  pattern_match (characters p) (characters t).

(** [SQLITE_MAX_LIKE_PATTERN_LENGTH], in bytes. *)
Definition SQLITE_MAX_LIKE_PATTERN_LENGTH : N := 50000.

Definition too_complex (p : string) : bool :=
  (SQLITE_MAX_LIKE_PATTERN_LENGTH <? N.of_nat (String.length p))%N.

(** *** Statements

    The statements the package sends, with their parameters bound. *)

Inductive value : Type :=
| VText (s : string)
| VInt (z : Z).

Definition row : Type := list value.

(** Statements run through [db.Exec]. *)
Inductive dml : Type :=
| InsertCourseStmt (crn title subject number description : string)
| InsertInstructorStmt (last first email crn : string)
| InsertMeetingStmt (days building room time crn : string)
| DeleteCoursesStmt (crn : string)
| DeleteInstructorsStmt (crn : string)
| DeleteMeetingsStmt (crn : string).

(** Statements run through [db.Query] and [db.QueryRow]. *)
Inductive select : Type :=
| SelectCourse (crn : string)
| SelectInstructors (crn : string)
| SelectMeetings (crn : string)
| SelectCRNs
| SelectCRNsTitleLike (pattern : string)
| SelectCRNsSubjectNumberLike (subject pattern : string)
| SelectCRNsWhereEq (key value : string).

Definition INSERT_INSTUCTOR_STATEMENT : string :=
  "INSERT INTO instructors (last_name, first_name, email, term_crn) VALUES (?, ?, ?, ?);".
Definition INSERT_MEETING_STATEMENT : string :=
  "INSERT INTO meetings (days, building, room, time, term_crn) VALUES (?, ?, ?, ?, ?);".
Definition INSERT_COURSE_STATEMENT : string :=
  "INSERT INTO courses (term_crn, title, subject_code, course_number, description) VALUES (?, ?, ?, ?, ?);".
Definition SELECT_COUSE_STATEMENT : string :=
  "SELECT term_crn, title, subject_code, course_number, description FROM courses WHERE term_crn = ?;".
Definition SELECT_INSTRUCTORS_STATEMENT : string :=
  "SELECT id, last_name, first_name, email FROM instructors WHERE term_crn = ?;".
Definition SELECT_MEETINGS_STATEMENT : string :=
  "SELECT id, days, building, room, time FROM meetings WHERE term_crn = ?;".

(** The text and the bound arguments of a statement, as logged. *)
Definition dml_text (s : dml) : string * list string :=
  match s with
  | InsertCourseStmt c t s n d => (INSERT_COURSE_STATEMENT, [c; t; s; n; d])
  | InsertInstructorStmt l f e c => (INSERT_INSTUCTOR_STATEMENT, [l; f; e; c])
  | InsertMeetingStmt d b r t c => (INSERT_MEETING_STATEMENT, [d; b; r; t; c])
  | DeleteCoursesStmt c => ("DELETE FROM courses WHERE term_crn = ?;", [c])
  | DeleteInstructorsStmt c =>
      ("DELETE FROM instructors WHERE term_crn = ?;", [c])
  | DeleteMeetingsStmt c => ("DELETE FROM meetings WHERE term_crn = ?;", [c])
  end.

Definition select_text (s : select) : string * list string :=
  match s with
  | SelectCourse c => (SELECT_COUSE_STATEMENT, [c])
  | SelectInstructors c => (SELECT_INSTRUCTORS_STATEMENT, [c])
  | SelectMeetings c => (SELECT_MEETINGS_STATEMENT, [c])
  | SelectCRNs => ("SELECT term_crn FROM courses;", [])
  | SelectCRNsTitleLike p =>
      ("SELECT term_crn FROM courses WHERE title LIKE ?", [p])
  | SelectCRNsSubjectNumberLike s p =>
      ("SELECT term_crn FROM courses WHERE subject_code = ? AND course_number LIKE ?",
       [s; p])
  | SelectCRNsWhereEq key v =>
      ("SELECT term_crn FROM courses WHERE " ++ key ++ " = ?", [v])
  end.

(** *** Meaning of the statements *)

Definition has_crn (crn : string) (r : course_row) : bool :=
  String.eqb (term_crn r) crn.
Definition instructor_of_crn (crn : string) (r : instructor_row) : bool :=
  String.eqb (instructor_crn r) crn.
Definition meeting_of_crn (crn : string) (r : meeting_row) : bool :=
  String.eqb (meeting_crn r) crn.

(** A statement either fails and leaves the store as it was, or takes
    effect as a whole. *)
Definition exec (s : dml) (st : Store) : res unit * Store :=
  match s with
  | InsertCourseStmt c t sj n d =>
      if existsb (has_crn c) (courses st)
      then (Fail (ErrUnique "courses.term_crn"), st)
      else (Ok tt,
            mkStore (courses st ++ [mkCourseRow c t sj n d])
                    (instructors st) (meetings st)
                    (seq_instructors st) (seq_meetings st))
  | InsertInstructorStmt l f e c =>
      let id := (seq_instructors st + 1)%Z in
      (Ok tt,
       mkStore (courses st)
               (instructors st ++ [mkInstructorRow id l f e c])
               (meetings st) id (seq_meetings st))
  | InsertMeetingStmt d b r t c =>
      let id := (seq_meetings st + 1)%Z in
      (Ok tt,
       mkStore (courses st) (instructors st)
               (meetings st ++ [mkMeetingRow id d b r t c])
               (seq_instructors st) id)
  | DeleteCoursesStmt c =>
      (Ok tt,
       mkStore (filter (fun r => negb (has_crn c r)) (courses st))
               (instructors st) (meetings st)
               (seq_instructors st) (seq_meetings st))
  | DeleteInstructorsStmt c =>
      (Ok tt,
       mkStore (courses st)
               (filter (fun r => negb (instructor_of_crn c r)) (instructors st))
               (meetings st) (seq_instructors st) (seq_meetings st))
  | DeleteMeetingsStmt c =>
      (Ok tt,
       mkStore (courses st) (instructors st)
               (filter (fun r => negb (meeting_of_crn c r)) (meetings st))
               (seq_instructors st) (seq_meetings st))
  end.

(** The columns of [courses] by name. *)
Definition course_column (name : string) : option (course_row -> string) :=
  if String.eqb name "term_crn" then Some term_crn
  else if String.eqb name "title" then Some title
  else if String.eqb name "subject_code" then Some subject_code
  else if String.eqb name "course_number" then Some course_number
  else if String.eqb name "description" then Some description
  else None.

Definition crn_row (r : course_row) : row := [VText (term_crn r)].
Definition course_fields (r : course_row) : row :=
  [VText (term_crn r); VText (title r); VText (subject_code r);
   VText (course_number r); VText (description r)].
Definition instructor_fields (r : instructor_row) : row :=
  [VInt (instructor_id r); VText (last_name r); VText (first_name r);
   VText (email r)].
Definition meeting_fields (r : meeting_row) : row :=
  [VInt (meeting_id r); VText (days r); VText (building r); VText (room r);
   VText (time r)].

(** [LIKE] refuses a pattern that is too long when it comes to evaluate
    it on a row; the statement fails at its first step, in [db.Query]. *)
Definition ErrLikeTooComplex : error :=
  ErrStore "LIKE or GLOB pattern too complex".

(** A listing of the primary key alone is answered from the index of
    the key: in ascending order of the CRNs, byte by byte.  The other
    queries scan the table. *)
Fixpoint insert_by_crn (r : course_row) (l : list course_row)
  : list course_row :=
  match l with
  | [] => [r]
  | x :: l' =>
      if String.leb (term_crn r) (term_crn x) then r :: l
      else x :: insert_by_crn r l'
  end.

Definition index_order (l : list course_row) : list course_row :=
  fold_right insert_by_crn [] l.

Definition title_like (p : string) (r : course_row) : bool := like p (title r).
Definition subject_number_like (s p : string) (r : course_row) : bool :=
  String.eqb (subject_code r) s && like p (course_number r).

(** A scan of [courses] with a [LIKE]: [evaluated] are the rows on which
    the [LIKE] is evaluated, [matched] the rows returned. *)
Definition like_query (p : string) (evaluated matched : course_row -> bool)
  (l : list course_row) : res (list row) :=
  if too_complex p && existsb evaluated l then Fail ErrLikeTooComplex
  else Ok (map crn_row (filter matched l)).

Definition query (s : select) (st : Store) : res (list row) :=
  match s with
  | SelectCourse c => Ok (map course_fields (filter (has_crn c) (courses st)))
  | SelectInstructors c =>
      Ok (map instructor_fields
              (filter (instructor_of_crn c) (instructors st)))
  | SelectMeetings c =>
      Ok (map meeting_fields (filter (meeting_of_crn c) (meetings st)))
  | SelectCRNs => Ok (map crn_row (index_order (courses st)))
  | SelectCRNsTitleLike p =>
      like_query p (fun _ => true) (title_like p) (courses st)
  | SelectCRNsSubjectNumberLike s p =>
      like_query p (fun r => String.eqb (subject_code r) s)
        (subject_number_like s p) (courses st)
  | SelectCRNsWhereEq key v =>
      match course_column key with
      | Some col =>
          Ok (map crn_row
                  (filter (fun r => String.eqb (col r) v) (courses st)))
      | None => Fail (ErrNoColumn key)
      end
  end.

(* ================================================================= *)
(** ** The handle *)

(** What a package function runs against: the store, the fault plan of
    the environment (one entry per statement sent, [Some e] makes that
    statement fail with [e]; past its end nothing fails) and the log of
    the statements sent so far. *)
Record World : Type := mkWorld
  { store : Store;
    faults : list (option error);
    log : list (string * list string) }.

Definition M (A : Type) : Type := World -> res A * World.

Definition ret {A} (a : A) : M A := fun w => (Ok a, w).

Definition lift {A} (r : res A) : M A := fun w => (r, w).

Definition bind {A B} (m : M A) (k : A -> M B) : M B :=
  fun w =>
    match m w with
    | (Ok a, w') => k a w'
    | (Fail e, w') => (Fail e, w')
    | (Panic p, w') => (Panic p, w')
    end.

Declare Scope go_scope.
Delimit Scope go_scope with go.
Notation "x <- m ;; k" := (bind m (fun x => k))
  (at level 100, m at next level, right associativity) : go_scope.
Notation "' pat <- m ;; k" := (bind m (fun x => match x with pat => k end))
  (at level 100, pat pattern, m at next level, right associativity) : go_scope.
Open Scope go_scope.

(** Sending a statement logs it and uses up one entry of the fault plan. *)
Definition send (entry : string * list string) (w : World)
  : option error * World :=
  (hd None (faults w),
   mkWorld (store w) (tl (faults w)) (log w ++ [entry])).

Definition db_Exec (s : dml) : M unit :=
  fun w =>
    let (fault, w1) := send (dml_text s) w in
    match fault with
    | Some e => (Fail e, w1)
    | None =>
        let (r, st) := exec s (store w1) in
        (r, mkWorld st (faults w1) (log w1))
    end.

Definition db_Query (s : select) : M (list row) :=
  fun w =>
    let (fault, w1) := send (select_text s) w in
    match fault with
    | Some e => (Fail e, w1)
    | None => (query s (store w1), w1)
    end.

(** [db.QueryRow] never fails by itself: the [*sql.Row] it returns holds
    the rows or the error until [Scan]. *)
Definition Row : Type := res (list row).

Definition db_QueryRow (s : select) : M Row :=
  fun w => let (r, w1) := db_Query s w in (Ok r, w1).

Definition Row_Scan {A} (r : Row) (dest : row -> res A) : res A :=
  match r with
  | Ok [] => Fail ErrNoRows
  | Ok (first :: _) => dest first
  | Fail e => Fail e
  | Panic p => Panic p
  end.

(** [Scan] into five, four and one [*string], with an [*int] in front for
    the child tables. *)
Definition scan_course (r : row)
  : res (string * string * string * string * string) :=
  match r with
  | [VText a; VText b; VText c; VText d; VText e] => Ok (a, b, c, d, e)
  | _ => Fail ErrScan
  end.

Definition scan_instructor (r : row) : res (Z * string * string * string) :=
  match r with
  | [VInt id; VText l; VText f; VText e] => Ok (id, l, f, e)
  | _ => Fail ErrScan
  end.

Definition scan_meeting (r : row)
  : res (Z * string * string * string * string) :=
  match r with
  | [VInt id; VText d; VText b; VText rm; VText t] => Ok (id, d, b, rm, t)
  | _ => Fail ErrScan
  end.

Definition scan_crn (r : row) : res string :=
  match r with
  | [VText c] => Ok c
  | _ => Fail ErrScan
  end.

(* ================================================================= *)
(** ** The package *)

(** *** OpenDatabase *)

Definition maxRetries : nat := 5.

(** [100 * time.Millisecond], in nanoseconds as [time.Duration] counts. *)
Definition baseDelay : Z := 100 * 1000000.

(** [time.Duration] is an [int64]. *)
Definition int64 (z : Z) : Z := ((z + 2 ^ 63) mod 2 ^ 64 - 2 ^ 63)%Z.

Definition Handle : Type := nat.

(** What [OpenDatabase] does to the outside, in order. *)
Inductive event : Type :=
| Open (attempt : nat)   (* sql.Open("sqlite", "hacknh.db") *)
| Sleep (d : Z).         (* time.Sleep(d) *)

(** The loop [for i := 0; i < maxRetries; i++] with [n = maxRetries - i]
    rounds to go; [sql_Open i] is what the [i]-th call of [sql.Open]
    answers.  [db] and [err] are the package variable and the local. *)
Fixpoint open_loop (sql_Open : nat -> Handle + error) (n i : nat)
  (db : option Handle) (err : option error)
  : (option Handle * option error) * list event :=
  match n with
  | O => ((db, err), [])
  | S n' =>
      match sql_Open i with
      | inl h => ((Some h, None), [Open i])
      | inr e =>
          let (r, tr) := open_loop sql_Open n' (S i) None (Some e) in
          (r, Open i :: Sleep (int64 (baseDelay * Z.of_nat i)) :: tr)
      end
  end.

Definition OpenDatabase (sql_Open : nat -> Handle + error)
  (db : option Handle) : (option Handle * option error) * list event :=
  open_loop sql_Open maxRetries 0 db None.

(** *** InsertCourse *)

Fixpoint insert_instructors (crn : string) (l : list Instructor) : M unit :=
  match l with
  | [] => ret tt
  | instructor :: l' =>
      _ <- db_Exec (InsertInstructorStmt (LastName instructor)
                      (FirstName instructor) (Email instructor) crn) ;;
      insert_instructors crn l'
  end.

Fixpoint insert_meetings (crn : string) (l : list Meeting) : M unit :=
  match l with
  | [] => ret tt
  | meeting :: l' =>
      _ <- db_Exec (InsertMeetingStmt (Days meeting) (Building meeting)
                      (Room meeting) (Time meeting) crn) ;;
      insert_meetings crn l'
  end.

Definition InsertCourse (course : Course) : M unit :=
  _ <- db_Exec (InsertCourseStmt (CRN course) (Title (Data course))
                  (Subject (Data course)) (Number (Data course))
                  (Description (Data course))) ;;
  _ <- insert_instructors (CRN course) (Instructors (Data course)) ;;
  _ <- insert_meetings (CRN course) (Meetings (Data course)) ;;
  ret tt.

(** *** DeleteCourse *)

Definition DeleteCourse (crn : string) : M unit :=
  _ <- db_Exec (DeleteCoursesStmt crn) ;;
  _ <- db_Exec (DeleteInstructorsStmt crn) ;;
  _ <- db_Exec (DeleteMeetingsStmt crn) ;;
  ret tt.

(** *** GetCourse *)

(** The loops [for rows.Next()]: scan a row, append, go on. *)
Fixpoint instructor_rows (rows : list row) (acc : list Instructor)
  : res (list Instructor) :=
  match rows with
  | [] => Ok acc
  | r :: rows' =>
      match scan_instructor r with
      | Ok (_, l, f, e) => instructor_rows rows' (acc ++ [mkInstructor l f e])
      | Fail e => Fail e
      | Panic p => Panic p
      end
  end.

Fixpoint meeting_rows (rows : list row) (acc : list Meeting)
  : res (list Meeting) :=
  match rows with
  | [] => Ok acc
  | r :: rows' =>
      match scan_meeting r with
      | Ok (_, d, b, rm, t) => meeting_rows rows' (acc ++ [mkMeeting d b rm t])
      | Fail e => Fail e
      | Panic p => Panic p
      end
  end.

Definition GetCourse (crn : string) : M Course :=
  r <- db_QueryRow (SelectCourse crn) ;;
  '(crn, title, subject_code, course_number, description)
     <- lift (Row_Scan r scan_course) ;;
  rows <- db_Query (SelectInstructors crn) ;;
  instructors <- lift (instructor_rows rows []) ;;
  rows <- db_Query (SelectMeetings crn) ;;
  meetings <- lift (meeting_rows rows []) ;;
  ret (mkCourse crn
         (mkCourseData title subject_code course_number description
            instructors meetings)).

(** *** GetCourseCRNs *)

Fixpoint crn_rows (rows : list row) (acc : slice string)
  : res (slice string) :=
  match rows with
  | [] => Ok acc
  | r :: rows' =>
      match scan_crn r with
      | Ok c => crn_rows rows' (append acc c)
      | Fail e => Fail e
      | Panic p => Panic p
      end
  end.

Definition GetCourseCRNs : M (slice string) :=
  rows <- db_Query SelectCRNs ;;
  lift (crn_rows rows (make [])).

(** *** QueryCourse *)

Definition QueryableKeys : list (string * string) :=
  [ ("term_crn", "CRN");
    ("title", "Title");
    ("subject_code", "Subject");
    ("course_number", "Number");
    ("subject-number", "Subject & Number") ].

Fixpoint map_lookup (key : string) (m : list (string * string))
  : option string :=
  match m with
  | [] => None
  | (k, v) :: m' => if String.eqb k key then Some v else map_lookup key m'
  end.

Fixpoint course_rows (rows : list row) (acc : slice Course)
  : M (slice Course) :=
  match rows with
  | [] => ret acc
  | r :: rows' =>
      crn <- lift (scan_crn r) ;;
      course <- GetCourse crn ;;
      course_rows rows' (append acc course)
  end.

Definition QueryCourse (key : string) (values : list string)
  : M (slice Course) :=
  match map_lookup key QueryableKeys with
  | None => lift (Fail (ErrNotQueryable key))
  | Some _ =>
      rows <-
        (if String.eqb key "title" then
           v0 <- lift (index values 0) ;;
           db_Query (SelectCRNsTitleLike ("%" ++ v0 ++ "%"))
         else if String.eqb key "subject-number" then
           v0 <- lift (index values 0) ;;
           v1 <- lift (index values 1) ;;
           db_Query (SelectCRNsSubjectNumberLike v0 ("%" ++ v1 ++ "%"))
         else
           v0 <- lift (index values 0) ;;
           db_Query (SelectCRNsWhereEq key v0)) ;;
      course_rows rows (make [])
  end.

(* ================================================================= *)
(** ** Specification vocabulary *)

(** The fault plan is used up or empty: the store answers every
    statement. *)
Definition healthy (w : World) : Prop := faults w = [].

(** The store answers the next statement. *)
Definition answers_next (w : World) : Prop := hd None (faults w) = None.

Definition course_stored (crn : string) (st : Store) : bool :=
  existsb (has_crn crn) (courses st).

(** Some instructor or meeting row carries the CRN. *)
Definition child_stored (crn : string) (st : Store) : bool :=
  existsb (instructor_of_crn crn) (instructors st)
  || existsb (meeting_of_crn crn) (meetings st).

(** The primary key of [courses]. *)
Definition primary_key (st : Store) : Prop :=
  NoDup (map term_crn (courses st)).

Definition instructor_of_row (r : instructor_row) : Instructor :=
  mkInstructor (last_name r) (first_name r) (email r).

Definition meeting_of_row (r : meeting_row) : Meeting :=
  mkMeeting (days r) (building r) (room r) (time r).

(** The aggregate of a course row: the row with the children that carry
    its CRN, in scan order. *)
Definition aggregate (st : Store) (r : course_row) : Course :=
  mkCourse (term_crn r)
    (mkCourseData (title r) (subject_code r) (course_number r) (description r)
       (map instructor_of_row
          (filter (instructor_of_crn (term_crn r)) (instructors st)))
       (map meeting_of_row
          (filter (meeting_of_crn (term_crn r)) (meetings st)))).

(** The aggregates of all stored courses. *)
Definition stored_courses (st : Store) : list Course :=
  map (aggregate st) (courses st).

(** The bytes of a string as numbers. *)
Fixpoint bytes (s : string) : list N :=
  match s with
  | EmptyString => []
  | String a s' => byte a :: bytes s'
  end.

(** ASCII text: every byte is below [0x80]. *)
Fixpoint ascii_text (s : string) : bool :=
  match s with
  | EmptyString => true
  | String a s' => (byte a <? 128)%N && ascii_text s'
  end.

(** Plain text: ASCII text without a NUL byte. *)
Fixpoint plain (s : string) : bool :=
  match s with
  | EmptyString => true
  | String a s' => (0 <? byte a)%N && (byte a <? 128)%N && plain s'
  end.

(** [t] contains [s] as a substring. *)
Definition contains (t s : string) : Prop :=
  exists pre post : string, t = (pre ++ s ++ post)%string.

Fixpoint fold_case (s : string) : string :=
  match s with
  | EmptyString => EmptyString
  | String c s' => String (to_lower c) (fold_case s')
  end.

(** [t] contains [s] as a substring up to the case of ASCII letters. *)
Definition contains_fold (t s : string) : Prop :=
  exists pre m post : string,
    t = (pre ++ m ++ post)%string /\ fold_case m = fold_case s.

(** No [%] and no [_] in [s]. *)
Fixpoint wildcard_free (s : string) : bool :=
  match s with
  | EmptyString => true
  | String c s' =>
      negb (Ascii.eqb c percent) && negb (Ascii.eqb c underscore)
      && wildcard_free s'
  end.

(** [strings.HasPrefix] and [strings.Contains], to decide [contains]. *)
Fixpoint has_prefix (t s : string) : bool :=
  match s, t with
  | EmptyString, _ => true
  | String _ _, EmptyString => false
  | String c s', String d t' => Ascii.eqb c d && has_prefix t' s'
  end.

Fixpoint strings_Contains (t s : string) : bool :=
  has_prefix t s
  || match t with
     | EmptyString => false
     | String _ t' => strings_Contains t' s
     end.

(** The store after the three [DELETE] statements. *)
Definition without (crn : string) (st : Store) : Store :=
  mkStore (filter (fun r => negb (has_crn crn r)) (courses st))
          (filter (fun r => negb (instructor_of_crn crn r)) (instructors st))
          (filter (fun r => negb (meeting_of_crn crn r)) (meetings st))
          (seq_instructors st) (seq_meetings st).

(** The predicate query of [QueryCourse]: the [switch] on the key. *)
Definition predicate_query (key : string) (values : list string)
  : M (list row) :=
  if String.eqb key "title" then
    v0 <- lift (index values 0) ;;
    db_Query (SelectCRNsTitleLike ("%" ++ v0 ++ "%"))
  else if String.eqb key "subject-number" then
    v0 <- lift (index values 0) ;;
    v1 <- lift (index values 1) ;;
    db_Query (SelectCRNsSubjectNumberLike v0 ("%" ++ v1 ++ "%"))
  else
    v0 <- lift (index values 0) ;;
    db_Query (SelectCRNsWhereEq key v0).

Definition is_Open (e : event) : bool :=
  match e with Open _ => true | Sleep _ => false end.

(** The number of calls of [sql.Open] in a trace. *)
Definition attempts (tr : list event) : nat := List.length (filter is_Open tr).

(** The waits that lie between two attempts: the sleeps that an attempt
    follows. *)
Fixpoint waits_between (tr : list event) : list Z :=
  match tr with
  | [] => []
  | e :: tr' =>
      match e, tr' with
      | Sleep d, Open _ :: _ => d :: waits_between tr'
      | _, _ => waits_between tr'
      end
  end.

(** The trace of [k] failed attempts from attempt [i] on, each followed
    by its sleep. *)
Definition failed_attempts (i k : nat) : list event :=
  flat_map (fun j => [Open j; Sleep (int64 (baseDelay * Z.of_nat j))])
           (seq i k).

(** A computation keeps a property of the world, whatever its outcome. *)
Definition keeps {A} (P : World -> Prop) (m : M A) : Prop :=
  forall w, P w -> P (snd (m w)).

(** The trace of [k] failed attempts with the delays written out: the
    base delay times the index of the attempt. *)
Definition backoff_trace (k : nat) : list event :=
  flat_map (fun j => [Open j; Sleep (baseDelay * Z.of_nat j)]) (seq 0 k).

(** Two aggregates are the same course: the same scalars and the same
    instructors and meetings as multisets. *)
Definition same_course (got course : Course) : Prop :=
  CRN got = CRN course
  /\ Title (Data got) = Title (Data course)
  /\ Subject (Data got) = Subject (Data course)
  /\ Number (Data got) = Number (Data course)
  /\ Description (Data got) = Description (Data course)
  /\ Permutation (Instructors (Data got)) (Instructors (Data course))
  /\ Permutation (Meetings (Data got)) (Meetings (Data course)).

(** [InsertCourse] succeeds and [GetCourse] then returns the same
    course. *)
Definition round_trip (course : Course) (w : World) : Prop :=
  exists w1 w2 got,
    InsertCourse course w = (Ok tt, w1)
    /\ GetCourse (CRN course) w1 = (Ok got, w2)
    /\ same_course got course.

(** The title query returns the stored courses whose title contains [s]
    and no others. *)
Definition title_query_by_substring (w : World) (s : string) : Prop :=
  exists cs w',
    QueryCourse "title" [s] w = (Ok cs, w')
    /\ forall c,
         In c (elems cs)
         <-> In c (stored_courses (store w)) /\ contains (Title (Data c)) s.

(** The subject-number query returns the stored courses of subject [a]
    whose number contains [b] and no others. *)
Definition subject_number_query_by_substring (w : World) (a b : string)
  : Prop :=
  exists cs w',
    QueryCourse "subject-number" [a; b] w = (Ok cs, w')
    /\ forall c,
         In c (elems cs)
         <-> In c (stored_courses (store w))
             /\ Subject (Data c) = a /\ contains (Number (Data c)) b.

(** [DeleteCourse] returns no error and has done nothing to the store. *)
Definition silent_no_op (crn : string) (w : World) : Prop :=
  exists w', DeleteCourse crn w = (Ok tt, w') /\ store w' = store w.

(** *** Scenarios *)

Definition systems : Course :=
  mkCourse "202410-12345"
    (mkCourseData "Introduction to Systems" "CS" "2101"
       "Processes, memory and files"
       [mkInstructor "Doe" "Jane" "jdoe@x.edu"]
       [mkMeeting "MWF" "Hall" "101" "10:00-10:50"]).

Definition advanced : Course :=
  mkCourse "202410-54321"
    (mkCourseData "Advanced Systems" "CS" "101" "Distributed systems"
       [mkInstructor "Roe" "Sam" "sroe@x.edu"; mkInstructor "Poe" "Ada" "apoe@x.edu"]
       []).

(** The course of [systems] offered again, with nobody assigned yet. *)
Definition systems_again : Course :=
  mkCourse "202410-12345"
    (mkCourseData "Introduction to Systems" "CS" "2101"
       "Processes, memory and files" [] []).

Definition fresh : World := mkWorld empty_store [] [].

(** Two courses inserted into the empty store. *)
Definition catalog : World :=
  snd (InsertCourse advanced (snd (InsertCourse systems fresh))).

Definition io_error : error := ErrStore "disk I/O error".

(** [systems] inserted, then deleted with the store failing on the second
    [DELETE]: the course row is gone, its children are left. *)
Definition orphaned : World :=
  snd (DeleteCourse "202410-12345"
         (snd (InsertCourse systems
                 (mkWorld empty_store
                    [None; None; None; None; Some io_error] [])))).

Definition open_error : error := ErrStore "unable to open database file".

Definition never_opens : nat -> Handle + error := fun _ => inr open_error.

Definition opens_at_last : nat -> Handle + error :=
  fun i => if Nat.eqb i 4 then inl 1 else inr open_error.

(* ================================================================= *)
(** ** Init *)

Definition USERS_STATEMENT : string := "CREATE TABLE IF NOT EXISTS users (
    id INTEGER PRIMARY KEY AUTOINCREMENT,
    username TEXT NOT NULL UNIQUE,
    password TEXT NOT NULL,
    classes TEXT NOT NULL
);".

Definition COURSES_STATEMENT : string := "CREATE TABLE IF NOT EXISTS courses (
    term_crn TEXT PRIMARY KEY,
    title TEXT NOT NULL,
    subject_code TEXT NOT NULL,
    course_number TEXT NOT NULL,
    description TEXT NOT NULL
);".

Definition INSTRUCTORS_STATEMENT : string := "CREATE TABLE IF NOT EXISTS instructors (
    id INTEGER PRIMARY KEY AUTOINCREMENT,
    last_name TEXT NOT NULL,
    first_name TEXT NOT NULL,
    email TEXT NOT NULL,
    term_crn TEXT NOT NULL,
    FOREIGN KEY (term_crn) REFERENCES courses(term_crn)
);".

Definition MEETINGS_STATEMENT : string := "CREATE TABLE IF NOT EXISTS meetings (
    id INTEGER PRIMARY KEY AUTOINCREMENT,
    days TEXT NOT NULL,
    building TEXT NOT NULL,
    room TEXT NOT NULL,
    time TEXT NOT NULL,
    term_crn TEXT NOT NULL,
    FOREIGN KEY (term_crn) REFERENCES courses(term_crn)
);".

Inductive table : Type :=
| UsersTable
| CoursesTable
| InstructorsTable
| MeetingsTable.

Definition table_eqb (a b : table) : bool :=
  match a, b with
  | UsersTable, UsersTable
  | CoursesTable, CoursesTable
  | InstructorsTable, InstructorsTable
  | MeetingsTable, MeetingsTable => true
  | _, _ => false
  end.

Definition create_text (t : table) : string :=
  match t with
  | UsersTable => USERS_STATEMENT
  | CoursesTable => COURSES_STATEMENT
  | InstructorsTable => INSTRUCTORS_STATEMENT
  | MeetingsTable => MEETINGS_STATEMENT
  end.

(** The schema of the database file: the tables that exist, in the order
    of their creation, with the fault plan of the environment and the log
    of the statements sent, as for [World]. *)
Record Schema : Type := mkSchema
  { tables : list table;
    schema_faults : list (option error);
    schema_log : list string }.

Definition has_table (t : table) (s : Schema) : bool :=
  existsb (table_eqb t) (tables s).

(** [db.Exec] of a [CREATE TABLE IF NOT EXISTS]: nothing happens to a
    table that exists; a foreign key may name a table that does not. *)
Definition create_table (t : table) (s : Schema) : option error * Schema :=
  match hd None (schema_faults s) with
  | Some e =>
      (Some e,
       mkSchema (tables s) (tl (schema_faults s))
                (schema_log s ++ [create_text t]))
  | None =>
      (None,
       mkSchema (if has_table t s then tables s else tables s ++ [t])
                (tl (schema_faults s))
                (schema_log s ++ [create_text t]))
  end.

(** How [Init] ends: it returns with the handle in the package variable,
    or panics with an error, or panics on a nil handle. *)
Inductive init_outcome : Type :=
| InitDone (db : Handle)
| InitPanic (e : error)
| InitNilHandle.

Definition Init (sql_Open : nat -> Handle + error) (db : option Handle)
  (s : Schema) : init_outcome * Schema * list event :=
  let (r, tr) := OpenDatabase sql_Open db in
  match r with
  | (_, Some e) => (InitPanic e, s, tr)
  | (None, None) => (InitNilHandle, s, tr)
  | (Some h, None) =>
      match create_table UsersTable s with
      | (Some e, s1) => (InitPanic e, s1, tr)
      | (None, s1) =>
          match create_table CoursesTable s1 with
          | (Some e, s2) => (InitPanic e, s2, tr)
          | (None, s2) =>
              match create_table InstructorsTable s2 with
              | (Some e, s3) => (InitPanic e, s3, tr)
              | (None, s3) =>
                  match create_table MeetingsTable s3 with
                  | (Some e, s4) => (InitPanic e, s4, tr)
                  | (None, s4) => (InitDone h, s4, tr)
                  end
              end
          end
      end
  end.

(* ================================================================= *)
(** ** More vocabulary *)

(** The rows of the three tables that carry a CRN. *)
Definition rows_of (crn : string) (st : Store)
  : list course_row * list instructor_row * list meeting_row :=
  (filter (has_crn crn) (courses st),
   filter (instructor_of_crn crn) (instructors st),
   filter (meeting_of_crn crn) (meetings st)).

(** The time a trace spends asleep, in nanoseconds. *)
Fixpoint total_sleep (tr : list event) : Z :=
  match tr with
  | [] => 0
  | Open _ :: tr' => total_sleep tr'
  | Sleep d :: tr' => (d + total_sleep tr')%Z
  end.

(** How many values the [switch] of [QueryCourse] indexes for a key. *)
Definition values_needed (key : string) : nat :=
  if String.eqb key "subject-number" then 2 else 1.

Definition panicked {A} (r : res A) : bool :=
  match r with Panic _ => true | _ => false end.

(** A computation extends the log, by statements within [P] only. *)
Definition sends {A} (P : string * list string -> Prop) (m : M A) : Prop :=
  forall w,
    exists new, log (snd (m w)) = (log w ++ new)%list /\ Forall P new.

(** The statement texts [QueryCourse] can send. *)
Definition query_texts : list string :=
  [ "SELECT term_crn FROM courses WHERE title LIKE ?";
    "SELECT term_crn FROM courses WHERE subject_code = ? AND course_number LIKE ?";
    "SELECT term_crn FROM courses WHERE term_crn = ?";
    "SELECT term_crn FROM courses WHERE subject_code = ?";
    "SELECT term_crn FROM courses WHERE course_number = ?";
    SELECT_COUSE_STATEMENT;
    SELECT_INSTRUCTORS_STATEMENT;
    SELECT_MEETINGS_STATEMENT ].

(** The statements of [InsertCourse] in the order of the source: the
    course row, the instructors, the meetings. *)
Definition insert_statements (course : Course) : list dml :=
  InsertCourseStmt (CRN course) (Title (Data course)) (Subject (Data course))
    (Number (Data course)) (Description (Data course))
  :: (map (fun i => InsertInstructorStmt (LastName i) (FirstName i) (Email i)
                      (CRN course))
          (Instructors (Data course))
      ++ map (fun m => InsertMeetingStmt (Days m) (Building m) (Room m)
                         (Time m) (CRN course))
             (Meetings (Data course)))%list.

(** The course data of a course row with given children. *)
Definition course_of (r : course_row) (irows : list instructor_row)
  (mrows : list meeting_row) : Course :=
  mkCourse (term_crn r)
    (mkCourseData (title r) (subject_code r) (course_number r) (description r)
       (map instructor_of_row irows) (map meeting_of_row mrows)).

(** What [GetCourse] answers on the rows that carry the CRN. *)
Definition get_result
  (rows : list course_row * list instructor_row * list meeting_row)
  : res Course :=
  match rows with
  | ([], _, _) => Fail ErrNoRows
  | (r :: _, irows, mrows) => Ok (course_of r irows mrows)
  end.

(** The CRN a statement of [db.Exec] writes or deletes. *)
Definition dml_crn (s : dml) : string :=
  match s with
  | InsertCourseStmt c _ _ _ _ => c
  | InsertInstructorStmt _ _ _ c => c
  | InsertMeetingStmt _ _ _ _ c => c
  | DeleteCoursesStmt c => c
  | DeleteInstructorsStmt c => c
  | DeleteMeetingsStmt c => c
  end.

(** The course row [InsertCourse] writes. *)
Definition row_of_course (course : Course) : course_row :=
  mkCourseRow (CRN course) (Title (Data course)) (Subject (Data course))
    (Number (Data course)) (Description (Data course)).

(** A fault plan that lets [k] statements through and fails the next
    with [e]. *)
Definition fails_at (k : nat) (e : error) (rest : list (option error))
  : list (option error) :=
  (repeat None k ++ Some e :: rest)%list.

(** Statements run one after the other through [db.Exec], up to the
    first that fails. *)
Fixpoint run (ss : list dml) : M unit :=
  match ss with
  | [] => ret tt
  | s :: ss' => _ <- db_Exec s ;; run ss'
  end.

(** The store after the statements took effect in turn. *)
Definition exec_all (ss : list dml) (st : Store) : Store :=
  fold_left (fun st s => snd (exec s st)) ss st.

(** A statement that violates no constraint, whatever the store. *)
Definition always_ok (s : dml) : Prop :=
  forall st, fst (exec s st) = Ok tt.

(** The field of a course that a key of the default branch of
    [QueryCourse] compares. *)
Definition key_field (key : string) (c : Course) : string :=
  if String.eqb key "term_crn" then CRN c
  else if String.eqb key "subject_code" then Subject (Data c)
  else Number (Data c).

(** The statements of [QueryCourse] are among [query_texts]. *)
Definition query_text_only (entry : string * list string) : Prop :=
  In (fst entry) query_texts.

(** A list of tables with [t] created if it did not exist. *)
Definition with_table (t : table) (l : list table) : list table :=
  if existsb (table_eqb t) l then l else (l ++ [t])%list.

(** The tables of [Init] in the order of its statements. *)
Definition init_tables : list table :=
  [UsersTable; CoursesTable; InstructorsTable; MeetingsTable].

Definition create_all (ts : list table) (l : list table) : list table :=
  fold_left (fun l t => with_table t l) ts l.

(** *** More scenarios *)

Definition fresh_schema : Schema := mkSchema [] [] [].

(** A database file of an earlier version, with the course table only. *)
Definition old_schema : Schema := mkSchema [CoursesTable] [] [].

Definition opens_at_once : nat -> Handle + error := fun _ => inl 1.

(* ================================================================= *)
(** ** LIKE *)

(** *** Bytes and case *)

Lemma byte_inj (a b : ascii) : byte a = byte b -> a = b.
Proof.
  unfold byte. intros H.
  rewrite <- (ascii_N_embedding a), <- (ascii_N_embedding b), H. reflexivity.
Qed.

Lemma byte_eqb (a b : ascii) : (byte a =? byte b)%N = Ascii.eqb a b.
Proof.
  destruct (Ascii.eqb a b) eqn:E.
  - apply Ascii.eqb_eq in E. subst. apply N.eqb_refl.
  - apply N.eqb_neq. intros H. apply byte_inj in H.
    apply Ascii.eqb_neq in E. contradiction.
Qed.

Lemma byte_of_small (c : N) : (c < 128)%N -> byte (ascii_of_N c) = c.
Proof. intros H. unfold byte. apply N_ascii_embedding. lia. Qed.

(** [to_lower] is [sqlite3Tolower] on bytes. *)
Lemma byte_to_lower (a : ascii) : byte (to_lower a) = lower_char (byte a).
Proof. destruct a as [[] [] [] [] [] [] [] []]; reflexivity. Qed.

(** A byte below [0x80] neither continues nor leads a character. *)
Lemma ascii_byte (a : ascii) :
  (byte a <? 128)%N = true ->
  is_continuation (byte a) = false /\ (192 <=? byte a)%N = false.
Proof.
  destruct a as [[] [] [] [] [] [] [] []]; intros H;
    try discriminate H; split; reflexivity.
Qed.

Lemma to_lower_high (a : ascii) :
  (byte a <? 128)%N = false -> to_lower a = a.
Proof.
  destruct a as [[] [] [] [] [] [] [] []]; intros H;
    try discriminate H; reflexivity.
Qed.

Lemma lower_char_spec (c : N) :
  ((65 <= c <= 90 /\ lower_char c = c + 32)
   \/ ((c < 65 \/ 90 < c) /\ lower_char c = c))%N.
Proof.
  unfold lower_char.
  destruct (65 <=? c)%N eqn:E1; destruct (c <=? 90)%N eqn:E2; simpl;
    try apply N.leb_le in E1; try apply N.leb_le in E2;
    try apply N.leb_gt in E1; try apply N.leb_gt in E2; lia.
Qed.

Lemma same_char_true (c c2 : N) :
  same_char c c2 = true
  <-> (c = c2 \/ (c < 128 /\ c2 < 128 /\ lower_char c = lower_char c2))%N.
Proof.
  unfold same_char.
  rewrite orb_true_iff, !andb_true_iff, !N.eqb_eq, !N.ltb_lt. tauto.
Qed.

Lemma utf8_fixup_high (c : N) : (128 <= utf8_fixup c)%N.
Proof.
  unfold utf8_fixup. destruct (c <? 128)%N eqn:E; simpl; [lia|].
  apply N.ltb_ge in E.
  destruct (_ || _); lia.
Qed.

(** A character of the text that matches an ASCII character of the
    pattern is an ASCII byte, equal to it up to case. *)
Lemma same_char_ascii (a : ascii) (c2 : N) :
  (byte a < 128)%N ->
  same_char (byte a) c2 = true ->
  exists x, c2 = byte x /\ (byte x < 128)%N /\ to_lower x = to_lower a.
Proof.
  intros Ha H. apply same_char_true in H.
  destruct H as [<- | (_ & H2 & H)]; [exists a; auto|].
  exists (ascii_of_N c2). rewrite (byte_of_small c2 H2).
  repeat split; auto. apply byte_inj.
  rewrite !byte_to_lower, (byte_of_small c2 H2). auto.
Qed.

Lemma to_lower_same_char (a x : ascii) :
  (byte a < 128)%N -> to_lower x = to_lower a ->
  same_char (byte a) (byte x) = true /\ (byte x < 128)%N.
Proof.
  intros Ha H. apply (f_equal byte) in H. rewrite !byte_to_lower in H.
  assert (Hx : (byte x < 128)%N).
  { destruct (lower_char_spec (byte a)) as [[? E1] | [? E1]];
      destruct (lower_char_spec (byte x)) as [[? E2] | [? E2]]; lia. }
  split; [|exact Hx]. apply same_char_true. right. auto.
Qed.

(** *** Characters *)

Lemma c_string_plain (s : string) : plain s = true -> c_string s = s.
Proof.
  induction s as [|a s IH]; simpl; [reflexivity|].
  intros H. apply andb_true_iff in H as [H Hs].
  apply andb_true_iff in H as [H0 _]. apply N.ltb_lt in H0.
  rewrite <- byte_eqb.
  replace (byte a =? byte zero)%N with false
    by (symmetry; apply N.eqb_neq; change (byte zero) with 0%N; lia).
  now rewrite IH.
Qed.

Lemma plain_ascii_text (s : string) : plain s = true -> ascii_text s = true.
Proof.
  induction s as [|a s IH]; simpl; [reflexivity|].
  intros H. apply andb_true_iff in H as [H Hs].
  apply andb_true_iff in H as [_ H1]. now rewrite H1, IH.
Qed.

(** An ASCII byte ends the character before it and is a character. *)
Lemma utf8_chars_ascii (pending : option N) (pre : string) (a : ascii)
  (post : string) :
  (byte a <? 128)%N = true ->
  utf8_chars pending (pre ++ String a post)
  = (utf8_chars pending pre ++ byte a :: utf8_chars None post)%list.
Proof.
  intros Ha. destruct (ascii_byte a Ha) as [Hc Hl].
  revert pending. induction pre as [|x pre IH]; intros pending.
  - cbn [String.append utf8_chars]. rewrite Hc, Hl.
    destruct pending; reflexivity.
  - cbn [String.append utf8_chars].
    destruct pending as [c|];
      repeat match goal with
             | |- context [if ?b then _ else _] => destruct b
             end; cbn [app]; now rewrite IH.
Qed.

Lemma utf8_chars_text (m post : string) :
  ascii_text m = true ->
  utf8_chars None (m ++ post) = (bytes m ++ utf8_chars None post)%list.
Proof.
  induction m as [|a m IH]; intros H; [reflexivity|].
  simpl in H. apply andb_true_iff in H as [Ha Hm].
  destruct (ascii_byte a Ha) as [_ Hl].
  cbn [String.append utf8_chars bytes app]. rewrite Hl. now rewrite IH.
Qed.

Lemma characters_plain (s : string) : plain s = true -> characters s = bytes s.
Proof.
  intros H. unfold characters. rewrite (c_string_plain s H).
  rewrite <- (app_nil_r (bytes s)).
  change (@nil N) with (utf8_chars None EmptyString).
  rewrite <- utf8_chars_text by now apply plain_ascii_text.
  f_equal. clear H. induction s as [|a s IH]; simpl; [reflexivity|].
  now rewrite <- IH.
Qed.

Lemma utf8_chars_nil (pending : option N) (t : string) :
  utf8_chars pending t = [] -> t = EmptyString /\ pending = None.
Proof.
  revert pending. induction t as [|a t IH]; intros pending H.
  - destruct pending; [discriminate H | auto].
  - exfalso. cbn [utf8_chars] in H.
    destruct pending as [c|];
      repeat match type of H with
             | context [if ?b then _ else _] => destruct b
             end; try discriminate H;
      apply IH in H as [_ H]; discriminate H.
Qed.

(** An ASCII character among the characters of a text is a byte of the
    text, and the characters on either side are those of the bytes on
    either side. *)
Lemma utf8_chars_split (pending : option N) (t : string) (P : list N)
  (a : N) (Q : list N) :
  (a < 128)%N ->
  utf8_chars pending t = (P ++ a :: Q)%list ->
  exists pre x post,
    t = (pre ++ String x post)%string /\ byte x = a
    /\ utf8_chars pending pre = P /\ utf8_chars None post = Q.
Proof.
  intros Ha. revert pending P. induction t as [|y t IH]; intros pending P H.
  - exfalso. destruct pending as [c|]; cbn in H.
    + pose proof (utf8_fixup_high c).
      destruct P as [|p0 [|p1 P]]; try discriminate H.
      injection H as H _. lia.
    + destruct P; discriminate H.
  - cbn [utf8_chars] in H.
    assert (Hstep : forall pend' P',
               utf8_chars pend' t = (P' ++ a :: Q)%list ->
               (forall pre, utf8_chars pending (String y pre)
                            = (firstn (List.length P - List.length P') P
                               ++ utf8_chars pend' pre)%list) ->
               (firstn (List.length P - List.length P') P ++ P')%list = P ->
               exists pre x post,
                 String y t = (pre ++ String x post)%string /\ byte x = a
                 /\ utf8_chars pending pre = P /\ utf8_chars None post = Q).
    { intros pend' P' H' Hpre HP.
      destruct (IH pend' P' H') as (pre & x & post & -> & Hx & Hp & Hq).
      exists (String y pre), x, post. repeat split; auto.
      rewrite Hpre, Hp. exact HP. }
    destruct pending as [c|].
    + pose proof (utf8_fixup_high c) as Hc.
      destruct (is_continuation (byte y)) eqn:Ec.
      * apply (Hstep _ P H).
        -- intros pre. cbn [utf8_chars]. rewrite Ec, Nat.sub_diag. reflexivity.
        -- now rewrite Nat.sub_diag.
      * destruct (192 <=? byte y)%N eqn:El.
        -- destruct P as [|p0 P]; [injection H as H _; lia|].
           injection H as <- H. apply (Hstep _ P H).
           ++ intros pre. cbn [utf8_chars]. rewrite Ec, El.
              cbn [List.length]. now replace (S (List.length P) - List.length P) with 1 by lia.
           ++ cbn [List.length]. now replace (S (List.length P) - List.length P) with 1 by lia.
        -- destruct P as [|p0 P]; [injection H as H _; lia|].
           injection H as <- H.
           destruct P as [|p1 P].
           ++ injection H as H1 H2. exists EmptyString, y, t.
              repeat split; auto.
           ++ injection H as <- H. apply (Hstep _ P H).
              ** intros pre. cbn [utf8_chars]. rewrite Ec, El.
                 cbn [List.length].
                 now replace (S (S (List.length P)) - List.length P) with 2 by lia.
              ** cbn [List.length].
                 now replace (S (S (List.length P)) - List.length P) with 2 by lia.
    + destruct (192 <=? byte y)%N eqn:El.
      * apply (Hstep _ P H).
        -- intros pre. cbn [utf8_chars]. rewrite El, Nat.sub_diag. reflexivity.
        -- now rewrite Nat.sub_diag.
      * destruct P as [|p0 P].
        -- injection H as H1 H2. exists EmptyString, y, t. repeat split; auto.
        -- injection H as <- H. apply (Hstep _ P H).
           ++ intros pre. cbn [utf8_chars]. rewrite El. cbn [List.length].
              now replace (S (List.length P) - List.length P) with 1 by lia.
           ++ cbn [List.length].
              now replace (S (List.length P) - List.length P) with 1 by lia.
Qed.

(** Characters that are ASCII text at the front of a text are its first
    bytes. *)
Lemma utf8_chars_front (m t : string) (Q : list N) :
  ascii_text m = true ->
  utf8_chars None t = (bytes m ++ Q)%list ->
  exists post, t = (m ++ post)%string /\ utf8_chars None post = Q.
Proof.
  revert t. induction m as [|a m IH]; intros t Hm H; [exists t; auto|].
  simpl in Hm. apply andb_true_iff in Hm as [Ha Hm]. apply N.ltb_lt in Ha.
  cbn [bytes app] in H.
  destruct (utf8_chars_split None t [] (byte a) _ Ha H)
    as (pre & x & post & -> & Hx & Hp & Hq).
  apply utf8_chars_nil in Hp as [-> _]. apply byte_inj in Hx. subst x.
  destruct (IH post Hm Hq) as (post' & -> & Hq'). exists post'. auto.
Qed.

(** *** Patterns *)

Lemma pattern_percent (p t : list N) :
  pattern_match (37%N :: p) t
  = pattern_match p t
    || match t with
       | [] => false
       | _ :: t' => pattern_match (37%N :: p) t'
       end.
Proof. destruct t; reflexivity. Qed.

Lemma pattern_literal (c : N) (p : list N) (c2 : N) (t : list N) :
  (c =? 37)%N = false ->
  pattern_match (c :: p) (c2 :: t)
  = ((c =? 95)%N || same_char c c2) && pattern_match p t.
Proof. intros H. cbn [pattern_match]. rewrite H. reflexivity. Qed.

Lemma pattern_literal_end (c : N) (p : list N) :
  (c =? 37)%N = false -> pattern_match (c :: p) [] = false.
Proof. intros H. cbn [pattern_match]. rewrite H. reflexivity. Qed.

(** [%] in front lets the rest of the pattern start anywhere. *)
Lemma pattern_skip (p t : list N) :
  pattern_match (37%N :: p) t = true
  <-> exists pre post, t = (pre ++ post)%list /\ pattern_match p post = true.
Proof.
  induction t as [|d t IH]; rewrite pattern_percent.
  - rewrite orb_false_r. split.
    + intros H. exists [], []. auto.
    + intros (pre & post & E & H). symmetry in E.
      apply app_eq_nil in E as [_ ->]. exact H.
  - rewrite orb_true_iff, IH. split.
    + intros [H | (pre & post & E & H)].
      * exists [], (d :: t). auto.
      * exists (d :: pre), post. subst t. auto.
    + intros (pre & post & E & H). destruct pre as [|c pre].
      * simpl in E. subst post. auto.
      * simpl in E. injection E as _ E. right. exists pre, post. auto.
Qed.

Lemma pattern_any (t : list N) : pattern_match [37%N] t = true.
Proof.
  apply pattern_skip. exists t, []. split; [|reflexivity].
  now rewrite app_nil_r.
Qed.

Lemma wildcard_free_byte (a : ascii) :
  negb (Ascii.eqb a percent) && negb (Ascii.eqb a underscore) = true ->
  (byte a =? 37)%N = false /\ (byte a =? 95)%N = false.
Proof.
  intros H. apply andb_true_iff in H as [Hp Hu].
  apply negb_true_iff in Hp, Hu.
  change 37%N with (byte percent). change 95%N with (byte underscore).
  now rewrite !byte_eqb.
Qed.

(** A plain pattern without wildcards followed by [%] matches the texts
    that start with it up to case. *)
Lemma pattern_prefix (s : string) (T : list N) :
  ascii_text s = true -> wildcard_free s = true ->
  pattern_match (bytes s ++ [37%N]) T = true
  <-> exists m Q,
        T = (bytes m ++ Q)%list /\ ascii_text m = true
        /\ fold_case m = fold_case s.
Proof.
  revert T. induction s as [|a s IH]; intros T Hs Hw.
  - cbn [bytes app]. rewrite pattern_any. split; [|reflexivity].
    intros _. exists EmptyString, T. auto.
  - simpl in Hs, Hw. apply andb_true_iff in Hs as [Ha Hs].
    apply andb_true_iff in Hw as [Hab Hw].
    destruct (wildcard_free_byte a Hab) as [Hp Hu].
    pose proof Ha as Ha'. apply N.ltb_lt in Ha'.
    cbn [bytes app]. destruct T as [|c2 T].
    + rewrite pattern_literal_end by exact Hp. split; [discriminate|].
      intros (m & Q & E & _ & F). destruct m; discriminate.
    + rewrite pattern_literal by exact Hp. rewrite Hu. cbn [orb].
      rewrite andb_true_iff, (IH T Hs Hw). split.
      * intros [Hc (m & Q & -> & Hm & F)].
        destruct (same_char_ascii a c2 Ha' Hc) as (x & -> & Hx & Hl).
        exists (String x m), Q. cbn [bytes app ascii_text fold_case].
        apply N.ltb_lt in Hx. rewrite Hx, Hm, Hl, F. auto.
      * intros (m & Q & E & Hm & F). destruct m as [|x m]; [discriminate|].
        cbn [bytes app ascii_text fold_case] in E, Hm, F.
        injection E as -> ->. injection F as F1 F2.
        apply andb_true_iff in Hm as [_ Hm].
        split; [now apply to_lower_same_char|]. exists m, Q. auto.
Qed.

(** Whatever wildcards it holds, a pattern followed by [%] matches the
    texts that start with it read as plain text. *)
Lemma pattern_prefix_plain (s : string) (Q : list N) :
  pattern_match (bytes s ++ [37%N]) (bytes s ++ Q) = true.
Proof.
  induction s as [|a s IH]; [apply pattern_any|].
  cbn [bytes app]. destruct (byte a =? 37)%N eqn:Hp.
  - apply N.eqb_eq in Hp. rewrite Hp. apply pattern_skip.
    exists [37%N], (bytes s ++ Q)%list. auto.
  - rewrite pattern_literal by exact Hp.
    unfold same_char. rewrite N.eqb_refl, orb_true_r. exact IH.
Qed.

(** *** LIKE on plain patterns *)

Lemma characters_wrapped (s : string) :
  plain s = true ->
  characters ("%" ++ s ++ "%") = (37%N :: bytes s ++ [37%N])%list.
Proof.
  intros H. rewrite characters_plain.
  - cbn [String.append bytes]. f_equal.
    induction s as [|a s IH]; [reflexivity|].
    simpl in H. apply andb_true_iff in H as [_ H].
    cbn [String.append bytes app]. now rewrite IH.
  - cbn [String.append plain]. change (0 <? byte "%")%N with true.
    change (byte "%" <? 128)%N with true. cbn [andb].
    induction s as [|a s IH]; [reflexivity|].
    simpl in H. apply andb_true_iff in H as [Ha H].
    cbn [String.append plain]. now rewrite Ha, IH.
Qed.

(** For a plain [s], every text that contains [s] before its first NUL
    byte matches [%s%]. *)
Lemma like_contains (s t : string) :
  plain s = true ->
  contains (c_string t) s -> like ("%" ++ s ++ "%") t = true.
Proof.
  intros Hs (pre & post & E). unfold like.
  rewrite (characters_wrapped s Hs). unfold characters. rewrite E.
  apply pattern_skip. destruct s as [|a s].
  - exists (utf8_chars None (pre ++ post)), []. rewrite app_nil_r.
    split; [reflexivity | apply pattern_any].
  - pose proof (plain_ascii_text _ Hs) as Ht. simpl in Ht.
    apply andb_true_iff in Ht as [Ha Ht].
    exists (utf8_chars None pre), (bytes (String a s) ++ utf8_chars None post)%list.
    split; [|apply pattern_prefix_plain].
    cbn [String.append]. rewrite (utf8_chars_ascii None pre a _ Ha).
    now rewrite (utf8_chars_text s post Ht).
Qed.

(** For a plain [s] without wildcards, the texts that match [%s%] are
    those that contain [s], up to the case of ASCII letters, before
    their first NUL byte. *)
Lemma like_contains_fold (s t : string) :
  plain s = true -> wildcard_free s = true ->
  like ("%" ++ s ++ "%") t = true <-> contains_fold (c_string t) s.
Proof.
  intros Hs Hw. pose proof (plain_ascii_text _ Hs) as Ht.
  unfold like. rewrite (characters_wrapped s Hs). unfold characters.
  rewrite pattern_skip. unfold contains_fold. split.
  - intros (P & T & E & H). apply pattern_prefix in H; [|exact Ht | exact Hw].
    destruct H as (m & Q & -> & Hm & F).
    destruct m as [|x m].
    + exists EmptyString, EmptyString, (c_string t). auto.
    + cbn [bytes app] in E. simpl in Hm.
      apply andb_true_iff in Hm as [Hx Hm]. apply N.ltb_lt in Hx.
      destruct (utf8_chars_split None (c_string t) P (byte x) _ Hx E)
        as (pre & y & post & Et & Hy & _ & Hq).
      apply byte_inj in Hy. subst y.
      destruct (utf8_chars_front m post Q Hm Hq) as (post' & -> & _).
      exists pre, (String x m), post'. auto.
  - intros (pre & m & post & E & F). rewrite E.
    destruct m as [|x m].
    + destruct s; [|discriminate F].
      exists (utf8_chars None (pre ++ post)), []. rewrite app_nil_r.
      split; [reflexivity | apply pattern_any].
    + destruct s as [|a s]; [discriminate F|].
      simpl in Ht. apply andb_true_iff in Ht as [Ha Hts].
      cbn [fold_case] in F. injection F as F1 F2.
      pose proof Ha as Ha'. apply N.ltb_lt in Ha'.
      destruct (to_lower_same_char a x Ha' F1) as [_ Hx].
      assert (Hm : ascii_text m = true).
      { clear - F2 Hts. revert s F2 Hts.
        induction m as [|y m IH]; intros s F2 Hts; [reflexivity|].
        destruct s as [|b s]; [discriminate F2|].
        cbn [fold_case] in F2. injection F2 as G1 G2.
        simpl in Hts. apply andb_true_iff in Hts as [Hb Hts].
        apply N.ltb_lt in Hb.
        destruct (to_lower_same_char b y Hb G1) as [_ Hy].
        apply N.ltb_lt in Hy. simpl. rewrite Hy. eauto. }
      apply N.ltb_lt in Hx.
      exists (utf8_chars None pre),
        (bytes (String x m) ++ utf8_chars None post)%list.
      split.
      * cbn [String.append]. rewrite (utf8_chars_ascii None pre x _ Hx).
        now rewrite (utf8_chars_text m post Hm).
      * apply pattern_prefix; [simpl; now rewrite Ha, Hts | exact Hw |].
        exists (String x m), (utf8_chars None post). repeat split.
        -- simpl. now rewrite Hx, Hm.
        -- cbn [fold_case]. now rewrite F1, F2.
Qed.

Lemma has_prefix_spec (t s : string) :
  has_prefix t s = true <-> exists post : string, t = (s ++ post)%string.
Proof.
  revert t. induction s as [|c s IH]; intros t.
  - split; [intros _; exists t; reflexivity | destruct t; reflexivity].
  - destruct t as [|d t]; simpl.
    + split; [discriminate | intros (post & E); discriminate].
    + rewrite andb_true_iff, Ascii.eqb_eq, IH. split.
      * intros [-> (post & ->)]. exists post. reflexivity.
      * intros (post & E). injection E as -> ->. eauto.
Qed.

Lemma strings_Contains_unfold (t s : string) :
  strings_Contains t s
  = has_prefix t s
    || match t with
       | EmptyString => false
       | String _ t' => strings_Contains t' s
       end.
Proof. destruct t; reflexivity. Qed.

Lemma strings_Contains_spec (t s : string) :
  strings_Contains t s = true <-> contains t s.
Proof.
  unfold contains. induction t as [|d t IH]; rewrite strings_Contains_unfold.
  - rewrite orb_false_r, has_prefix_spec. split.
    + intros (post & E). exists EmptyString, post. exact E.
    + intros (pre & post & E). destruct pre; [|discriminate]. eauto.
  - rewrite orb_true_iff, has_prefix_spec, IH. split.
    + intros [(post & E) | (pre & post & E)].
      * exists EmptyString, post. exact E.
      * exists (String d pre), post. subst t. reflexivity.
    + intros (pre & post & E). destruct pre as [|c pre].
      * left. exists post. exact E.
      * right. simpl in E. injection E as _ E. eauto.
Qed.

(* ================================================================= *)
(** ** Running statements *)

Lemma bind_Ok {A B} (m : M A) (k : A -> M B) (w : World) (b : B) (w' : World) :
  bind m k w = (Ok b, w') ->
  exists a w1, m w = (Ok a, w1) /\ k a w1 = (Ok b, w').
Proof.
  unfold bind. destruct (m w) as [[a|e|p] w1]; intros H; try discriminate.
  eauto.
Qed.

Lemma bind_step {A B} (m : M A) (k : A -> M B) (w : World) (a : A) (w1 : World) :
  m w = (Ok a, w1) -> bind m k w = k a w1.
Proof. unfold bind. intros ->. reflexivity. Qed.

Lemma lift_Ok {A} (r : res A) (w : World) (a : A) (w' : World) :
  lift r w = (Ok a, w') -> r = Ok a /\ w' = w.
Proof. unfold lift. intros H. injection H as -> ->. auto. Qed.

Lemma healthy_answers (w : World) : healthy w -> answers_next w.
Proof. unfold healthy, answers_next. intros ->. reflexivity. Qed.

Lemma db_Exec_answers (s : dml) (w : World) :
  answers_next w ->
  db_Exec s w
  = (fst (exec s (store w)),
     mkWorld (snd (exec s (store w))) (tl (faults w)) (log w ++ [dml_text s])).
Proof.
  unfold answers_next, db_Exec, send. intros ->. simpl.
  destruct (exec s (store w)); reflexivity.
Qed.

Lemma db_Exec_Ok (s : dml) (w : World) (u : unit) (w' : World) :
  db_Exec s w = (Ok u, w') ->
  exec s (store w) = (Ok tt, store w') /\ faults w' = tl (faults w).
Proof.
  unfold db_Exec, send. destruct (hd None (faults w)); [discriminate|].
  simpl. destruct (exec s (store w)) as [r st]. intros H.
  injection H as -> <-. destruct u. auto.
Qed.

(** A statement that fails leaves the store as it was. *)
Lemma exec_Fail (s : dml) (st : Store) (e : error) (st' : Store) :
  exec s st = (Fail e, st') -> st' = st.
Proof.
  destruct s; simpl; try discriminate.
  destruct (existsb _ _); [|discriminate]. intros H. injection H; auto.
Qed.

Lemma db_Query_answers (s : select) (w : World) :
  answers_next w ->
  db_Query s w
  = (query s (store w),
     mkWorld (store w) (tl (faults w)) (log w ++ [select_text s])).
Proof. unfold answers_next, db_Query, send. intros ->. reflexivity. Qed.

(** Reading leaves the store as it was; an answer is the store's. *)
Lemma db_Query_inv (s : select) (w : World) (r : res (list row)) (w1 : World) :
  db_Query s w = (r, w1) ->
  store w1 = store w /\ faults w1 = tl (faults w)
  /\ (r = query s (store w) \/ exists e, r = Fail e).
Proof.
  unfold db_Query, send. destruct (hd None (faults w)); intros H;
    injection H as <- <-; simpl; eauto.
Qed.

(** The scan loops on the rows a [SELECT] of the source returns. *)
Lemma instructor_rows_fields (l : list instructor_row) (acc : list Instructor) :
  instructor_rows (map instructor_fields l) acc
  = Ok (acc ++ map instructor_of_row l)%list.
Proof.
  revert acc. induction l as [|r l IH]; intros acc; simpl.
  - now rewrite app_nil_r.
  - rewrite IH, <- app_assoc. reflexivity.
Qed.

Lemma meeting_rows_fields (l : list meeting_row) (acc : list Meeting) :
  meeting_rows (map meeting_fields l) acc
  = Ok (acc ++ map meeting_of_row l)%list.
Proof.
  revert acc. induction l as [|r l IH]; intros acc; simpl.
  - now rewrite app_nil_r.
  - rewrite IH, <- app_assoc. reflexivity.
Qed.

Lemma crn_rows_fields (l : list course_row) (acc : list string) :
  crn_rows (map crn_row l) (make acc)
  = Ok (make (acc ++ map term_crn l)%list).
Proof.
  revert acc. induction l as [|r l IH]; intros acc; simpl.
  - now rewrite app_nil_r.
  - unfold append. simpl. rewrite IH, <- app_assoc. reflexivity.
Qed.

(** The order of the index: the rows of the table, each once, in
    ascending order of the CRNs. *)
Lemma insert_by_crn_perm (r : course_row) (l : list course_row) :
  Permutation (insert_by_crn r l) (r :: l).
Proof.
  induction l as [|x l IH]; simpl; [reflexivity|].
  destruct (String.leb (term_crn r) (term_crn x)); [reflexivity|].
  rewrite IH. apply perm_swap.
Qed.

Lemma index_order_perm (l : list course_row) : Permutation (index_order l) l.
Proof.
  induction l as [|a l IH]; simpl; [reflexivity|].
  rewrite insert_by_crn_perm. now constructor.
Qed.

Lemma insert_by_crn_sorted (r : course_row) (l : list course_row) :
  Sorted (fun a b => String.leb a b = true) (map term_crn l) ->
  Sorted (fun a b => String.leb a b = true)
    (map term_crn (insert_by_crn r l)).
Proof.
  induction l as [|x l IH]; intros H; simpl.
  - repeat constructor.
  - destruct (String.leb (term_crn r) (term_crn x)) eqn:E.
    + simpl. constructor; [exact H|]. now constructor.
    + inversion H as [|? ? Hs Hh]; subst. simpl. constructor; [auto|].
      destruct l as [|y l]; simpl.
      * constructor. destruct (String.leb_total (term_crn r) (term_crn x));
          congruence.
      * destruct (String.leb (term_crn r) (term_crn y)); simpl; constructor.
        -- destruct (String.leb_total (term_crn r) (term_crn x)); congruence.
        -- now inversion Hh.
Qed.

Lemma index_order_sorted (l : list course_row) :
  Sorted (fun a b => String.leb a b = true) (map term_crn (index_order l)).
Proof.
  induction l as [|a l IH]; simpl; [constructor|].
  now apply insert_by_crn_sorted.
Qed.

(** When the store answers, [GetCourseCRNs] returns the CRNs of all
    course rows, in the order of the index, in an allocated slice. *)
Lemma GetCourseCRNs_answers (w : World) :
  answers_next w ->
  fst (GetCourseCRNs w)
  = Ok (make (map term_crn (index_order (courses (store w))))).
Proof.
  intros Hw. unfold GetCourseCRNs, bind.
  rewrite (db_Query_answers _ _ Hw). cbn [query lift fst].
  apply crn_rows_fields.
Qed.

(** *** GetCourse *)

(** A successful [GetCourse] returns the aggregate of the first course
    row with the CRN and leaves the store as it was. *)
Lemma GetCourse_Ok (crn : string) (w : World) (c : Course) (w' : World) :
  GetCourse crn w = (Ok c, w') ->
  store w' = store w
  /\ exists r rest,
       filter (has_crn crn) (courses (store w)) = r :: rest
       /\ c = aggregate (store w) r.
Proof.
  unfold GetCourse. intros H.
  apply bind_Ok in H as (r0 & w1 & H1 & H).
  apply bind_Ok in H as (x & w2 & H2 & H).
  apply lift_Ok in H2 as [H2 ->].
  unfold db_QueryRow in H1.
  destruct (db_Query (SelectCourse crn) w) as [q w1'] eqn:Q.
  injection H1 as <- <-.
  apply db_Query_inv in Q as (S1 & _ & [-> | [e ->]]); [|discriminate].
  simpl in H2.
  destruct (filter (has_crn crn) (courses (store w))) as [|r rest];
    [discriminate|].
  simpl in H2. injection H2 as <-.
  apply bind_Ok in H as (irows & w3 & H3 & H).
  apply bind_Ok in H as (ins & w4 & H4 & H).
  apply lift_Ok in H4 as [H4 ->].
  apply bind_Ok in H as (mrows & w5 & H5 & H).
  apply bind_Ok in H as (ms & w6 & H6 & H).
  apply lift_Ok in H6 as [H6 ->].
  apply db_Query_inv in H3 as (S3 & _ & [E3 | [e E3]]); [|discriminate].
  apply db_Query_inv in H5 as (S5 & _ & [E5 | [e E5]]); [|discriminate].
  simpl in E3, E5. injection E3 as ->. injection E5 as ->.
  rewrite instructor_rows_fields in H4. rewrite meeting_rows_fields in H6.
  injection H4 as <-. injection H6 as <-.
  unfold ret in H. injection H as <- <-.
  rewrite S5, S3, S1. split; [reflexivity|].
  exists r, rest. split; [reflexivity|].
  reflexivity.
Qed.

(** On a healthy handle [GetCourse] finds a stored course. *)
Lemma GetCourse_healthy (crn : string) (w : World) (r : course_row)
  (rest : list course_row) :
  healthy w ->
  filter (has_crn crn) (courses (store w)) = r :: rest ->
  exists w',
    GetCourse crn w = (Ok (aggregate (store w) r), w')
    /\ store w' = store w /\ healthy w'.
Proof.
  intros Hw Hf. destruct w as [st fs lg]. unfold healthy in *.
  simpl in Hw, Hf. subst fs.
  unfold GetCourse, bind, db_QueryRow, db_Query, send, lift, ret.
  cbn [faults store log hd tl query Row_Scan]. rewrite Hf.
  cbn [map scan_course course_fields].
  cbn [faults store log hd tl query].
  rewrite instructor_rows_fields, meeting_rows_fields.
  eexists. split; [reflexivity|]. split; reflexivity.
Qed.

(** When the store answers and holds no course with the CRN,
    [GetCourse] fails with [sql.ErrNoRows]. *)
Lemma GetCourse_missing (crn : string) (w : World) :
  answers_next w ->
  filter (has_crn crn) (courses (store w)) = [] ->
  fst (GetCourse crn w) = Fail ErrNoRows.
Proof.
  intros Hw Hf. unfold GetCourse, db_QueryRow.
  unfold bind at 1. rewrite (db_Query_answers _ _ Hw).
  cbn [query]. rewrite Hf. reflexivity.
Qed.

(* ================================================================= *)
(** ** Lists of rows *)

Section Filters.
Context {A : Type} (f : A -> bool).

Lemma existsb_false_filter (l : list A) :
  existsb f l = false -> filter f l = [].
Proof.
  induction l as [|a l IH]; simpl; [reflexivity|].
  intros H. apply orb_false_iff in H as [-> H]. auto.
Qed.

Lemma existsb_false_keep (l : list A) :
  existsb f l = false -> filter (fun a => negb (f a)) l = l.
Proof.
  induction l as [|a l IH]; simpl; [reflexivity|].
  intros H. apply orb_false_iff in H as [-> H]. simpl. now rewrite IH.
Qed.

Lemma existsb_removed (l : list A) :
  existsb f (filter (fun a => negb (f a)) l) = false.
Proof.
  induction l as [|a l IH]; simpl; [reflexivity|].
  destruct (f a) eqn:E; simpl; [exact IH|]. now rewrite E.
Qed.

Lemma filter_all (l : list A) :
  Forall (fun a => f a = true) l -> filter f l = l.
Proof.
  induction 1 as [|a l Ha _ IH]; simpl; [reflexivity|].
  now rewrite Ha, IH.
Qed.
End Filters.

(** Under the primary key a CRN selects its row and no other. *)
Lemma primary_key_selects (l : list course_row) (r : course_row) :
  NoDup (map term_crn l) -> In r l -> filter (has_crn (term_crn r)) l = [r].
Proof.
  induction l as [|a l IH]; simpl; [tauto|].
  intros Hnd Hin. inversion Hnd as [|? ? Hnotin Hnd']; subst.
  unfold has_crn at 1. destruct Hin as [-> | Hin].
  - rewrite String.eqb_refl. f_equal.
    apply existsb_false_filter.
    destruct (existsb (has_crn (term_crn r)) l) eqn:E; [|reflexivity].
    apply existsb_exists in E as (x & Hx & E). unfold has_crn in E.
    apply String.eqb_eq in E. exfalso. apply Hnotin.
    rewrite <- E. now apply in_map.
  - destruct (String.eqb (term_crn a) (term_crn r)) eqn:E.
    + apply String.eqb_eq in E. exfalso. apply Hnotin.
      rewrite E. now apply in_map.
    + auto.
Qed.

Lemma course_stored_In (crn : string) (st : Store) :
  course_stored crn st = true
  <-> exists r, In r (courses st) /\ term_crn r = crn.
Proof.
  unfold course_stored. rewrite existsb_exists. unfold has_crn.
  split; intros (r & H & E); exists r; split; auto; now apply String.eqb_eq.
Qed.

(** *** The primary key is kept by every statement *)

Lemma NoDup_map_filter {A B} (g : A -> B) (f : A -> bool) (l : list A) :
  NoDup (map g l) -> NoDup (map g (filter f l)).
Proof.
  induction l as [|a l IH]; simpl; [auto|].
  intros H. inversion H as [|? ? Hn Hd]; subst.
  destruct (f a); simpl; auto. constructor; auto.
  intros Hin. apply Hn. apply in_map_iff in Hin as (x & <- & Hx).
  apply filter_In in Hx as [Hx _]. now apply in_map.
Qed.

Lemma exec_primary_key (s : dml) (st : Store) :
  primary_key st -> primary_key (snd (exec s st)).
Proof.
  unfold primary_key. intros H. destruct s; simpl; auto.
  - destruct (existsb (has_crn crn) (courses st)) eqn:E; simpl; [exact H|].
    rewrite map_app. simpl.
    apply (Permutation_NoDup (l := crn :: map term_crn (courses st))).
    + apply Permutation_cons_append.
    + constructor; [|exact H]. intros Hin.
      apply in_map_iff in Hin as (r & Hr & Hin).
      assert (existsb (has_crn crn) (courses st) = true); [|congruence].
      apply existsb_exists. exists r. split; [exact Hin|].
      unfold has_crn. now apply String.eqb_eq.
  - now apply NoDup_map_filter.
Qed.

Lemma empty_store_primary_key : primary_key empty_store.
Proof. constructor. Qed.

(* ================================================================= *)
(** ** InsertCourse on a healthy handle *)

Lemma insert_instructors_healthy (crn : string) (l : list Instructor) (w : World) :
  healthy w ->
  exists w',
    insert_instructors crn l w = (Ok tt, w')
    /\ healthy w'
    /\ courses (store w') = courses (store w)
    /\ meetings (store w') = meetings (store w)
    /\ exists rows,
         instructors (store w') = (instructors (store w) ++ rows)%list
         /\ map instructor_of_row rows = l
         /\ Forall (fun r => instructor_of_crn crn r = true) rows.
Proof.
  revert w. induction l as [|i l IH]; intros w Hw.
  - exists w. repeat split; auto. exists []. rewrite app_nil_r. auto.
  - cbn [insert_instructors]. unfold bind at 1.
    rewrite (db_Exec_answers _ _ (healthy_answers _ Hw)).
    cbn [exec fst snd].
    match goal with |- context [insert_instructors crn l ?w1] =>
      destruct (IH w1) as (w' & R & Hw' & Hc & Hm & rows & Hi & Hl & Hall)
    end.
    { unfold healthy in *. simpl. now rewrite Hw. }
    exists w'. cbn [store courses meetings instructors] in Hc, Hm, Hi.
    repeat split; auto.
    eexists (_ :: rows). rewrite Hi, <- app_assoc. simpl.
    split; [reflexivity|]. split.
    + now rewrite Hl; destruct i.
    + constructor; [|exact Hall]. unfold instructor_of_crn. simpl.
      apply String.eqb_refl.
Qed.

Lemma insert_meetings_healthy (crn : string) (l : list Meeting) (w : World) :
  healthy w ->
  exists w',
    insert_meetings crn l w = (Ok tt, w')
    /\ healthy w'
    /\ courses (store w') = courses (store w)
    /\ instructors (store w') = instructors (store w)
    /\ exists rows,
         meetings (store w') = (meetings (store w) ++ rows)%list
         /\ map meeting_of_row rows = l
         /\ Forall (fun r => meeting_of_crn crn r = true) rows.
Proof.
  revert w. induction l as [|i l IH]; intros w Hw.
  - exists w. repeat split; auto. exists []. rewrite app_nil_r. auto.
  - cbn [insert_meetings]. unfold bind at 1.
    rewrite (db_Exec_answers _ _ (healthy_answers _ Hw)).
    cbn [exec fst snd].
    match goal with |- context [insert_meetings crn l ?w1] =>
      destruct (IH w1) as (w' & R & Hw' & Hc & Hm & rows & Hi & Hl & Hall)
    end.
    { unfold healthy in *. simpl. now rewrite Hw. }
    exists w'. cbn [store courses meetings instructors] in Hc, Hm, Hi.
    repeat split; auto.
    eexists (_ :: rows). rewrite Hi, <- app_assoc. simpl.
    split; [reflexivity|]. split.
    + now rewrite Hl; destruct i.
    + constructor; [|exact Hall]. unfold meeting_of_crn. simpl.
      apply String.eqb_refl.
Qed.

(** [InsertCourse] then [GetCourse] on a healthy handle, for a CRN that no
    row of the store carries: the course read back is the course
    written. *)
Lemma InsertCourse_GetCourse_eq (course : Course) (w : World) :
  healthy w ->
  course_stored (CRN course) (store w) = false ->
  child_stored (CRN course) (store w) = false ->
  exists w1 w2,
    InsertCourse course w = (Ok tt, w1)
    /\ GetCourse (CRN course) w1 = (Ok course, w2).
Proof.
  intros Hw Hc Hch. unfold child_stored in Hch.
  apply orb_false_iff in Hch as [Hi Hm]. unfold course_stored in Hc.
  unfold InsertCourse. unfold bind at 1.
  rewrite (db_Exec_answers _ _ (healthy_answers _ Hw)).
  cbn [exec]. rewrite Hc. cbn [fst snd].
  match goal with |- context [bind (insert_instructors _ _) _ ?w0] =>
    set (wa := w0)
  end.
  assert (Ha : healthy wa) by (unfold healthy in *; subst wa; simpl; now rewrite Hw).
  destruct (insert_instructors_healthy (CRN course)
              (Instructors (Data course)) wa Ha)
    as (wb & Rb & Hb & Cb & Mb & irows & Ib & Il & Iall).
  destruct (insert_meetings_healthy (CRN course)
              (Meetings (Data course)) wb Hb)
    as (wc & Rc & Hwc & Cc & Ic & mrows & Mc & Ml & Mall).
  rewrite (bind_step _ _ _ _ _ Rb), (bind_step _ _ _ _ _ Rc).
  unfold ret.
  set (r := mkCourseRow (CRN course) (Title (Data course))
              (Subject (Data course)) (Number (Data course))
              (Description (Data course))).
  assert (Hsel : filter (has_crn (CRN course)) (courses (store wc)) = [r]).
  { rewrite Cc, Cb. subst wa. cbn [store courses].
    rewrite filter_app, (existsb_false_filter _ _ Hc). simpl.
    unfold has_crn. simpl. now rewrite String.eqb_refl. }
  destruct (GetCourse_healthy _ _ _ _ Hwc Hsel) as (wd & Rd & _ & _).
  exists wc, wd. split; [reflexivity|]. rewrite Rd. f_equal. f_equal.
  unfold aggregate. cbn [term_crn title subject_code course_number description r].
  rewrite Ic, Ib, Mc, Mb. subst wa. cbn [store instructors meetings].
  rewrite !filter_app.
  rewrite (existsb_false_filter _ _ Hi), (existsb_false_filter _ _ Hm).
  rewrite (filter_all _ _ Iall), (filter_all _ _ Mall). simpl.
  rewrite Il, Ml. destruct course as [crn [t sj n d ins ms]]. reflexivity.
Qed.

(* ================================================================= *)
(** ** DeleteCourse *)

Lemma DeleteCourse_Ok (crn : string) (w : World) (u : unit) (w' : World) :
  DeleteCourse crn w = (Ok u, w') -> store w' = without crn (store w).
Proof.
  unfold DeleteCourse. intros H.
  apply bind_Ok in H as (u1 & w1 & H1 & H).
  apply bind_Ok in H as (u2 & w2 & H2 & H).
  apply bind_Ok in H as (u3 & w3 & H3 & H).
  unfold ret in H. injection H as _ <-.
  apply db_Exec_Ok in H1 as [H1 _], H2 as [H2 _], H3 as [H3 _].
  simpl in H1, H2, H3.
  injection H1 as H1. injection H2 as H2. injection H3 as H3.
  rewrite <- H3, <- H2, <- H1. reflexivity.
Qed.

Lemma DeleteCourse_healthy (crn : string) (w : World) :
  healthy w ->
  exists w',
    DeleteCourse crn w = (Ok tt, w')
    /\ store w' = without crn (store w) /\ healthy w'.
Proof.
  intros Hw. destruct w as [st fs lg]. unfold healthy in Hw. simpl in Hw.
  subst fs. eexists. split; [reflexivity|]. split; reflexivity.
Qed.

Lemma without_clean (crn : string) (st : Store) :
  course_stored crn (without crn st) = false
  /\ child_stored crn (without crn st) = false.
Proof.
  unfold course_stored, child_stored, without. simpl.
  now rewrite !existsb_removed.
Qed.

Lemma without_absent (crn : string) (st : Store) :
  course_stored crn st = false ->
  courses (without crn st) = courses st
  /\ (child_stored crn st = false -> without crn st = st).
Proof.
  unfold course_stored, child_stored, without. intros Hc. simpl.
  rewrite (existsb_false_keep _ _ Hc). split; [reflexivity|].
  intros H. apply orb_false_iff in H as [Hi Hm].
  rewrite (existsb_false_keep _ _ Hi), (existsb_false_keep _ _ Hm).
  destruct st; reflexivity.
Qed.

(* ================================================================= *)
(** ** QueryCourse *)

(** Whatever the faults, the courses a query returns are aggregates of
    stored course rows, and the store is as it was. *)
Lemma course_rows_Ok (rows : list row) (acc : slice Course) (w : World)
  (cs : slice Course) (w' : World) :
  course_rows rows acc w = (Ok cs, w') ->
  store w' = store w
  /\ forall c, In c (elems cs) ->
       In c (elems acc)
       \/ exists r, In r (courses (store w)) /\ c = aggregate (store w) r.
Proof.
  revert acc w. induction rows as [|r0 rows IH]; intros acc w H.
  - simpl in H. unfold ret in H. injection H as <- <-. auto.
  - cbn [course_rows] in H.
    apply bind_Ok in H as (crn & w1 & H1 & H).
    apply lift_Ok in H1 as [_ ->].
    apply bind_Ok in H as (c0 & w2 & H2 & H).
    apply GetCourse_Ok in H2 as (S2 & r & rest & Hf & ->).
    apply IH in H as (S & Hin). rewrite S, S2. split; [reflexivity|].
    intros c Hc. destruct (Hin c Hc) as [Ha | (r' & Hr' & E)].
    + unfold append in Ha. simpl in Ha. apply in_app_iff in Ha as [Ha|Ha].
      * now left.
      * right. destruct Ha as [<- | []]. exists r. split; [|reflexivity].
        assert (Hr : In r (filter (has_crn crn) (courses (store w))))
          by (rewrite Hf; now left).
        now apply filter_In in Hr.
    + right. exists r'. now rewrite <- S2.
Qed.

Lemma QueryCourse_unfold (key : string) (values : list string) :
  QueryCourse key values
  = match map_lookup key QueryableKeys with
    | None => lift (Fail (ErrNotQueryable key))
    | Some _ =>
        rows <- predicate_query key values ;; course_rows rows (make [])
    end.
Proof. reflexivity. Qed.

Lemma predicate_query_store (key : string) (values : list string)
  (w : World) (rows : list row) (w' : World) :
  predicate_query key values w = (Ok rows, w') -> store w' = store w.
Proof.
  unfold predicate_query. intros H.
  destruct (String.eqb key "title");
    [|destruct (String.eqb key "subject-number")];
    repeat (apply bind_Ok in H as (? & ? & H1 & H);
            apply lift_Ok in H1 as [_ ->]);
    now apply db_Query_inv in H as [S _].
Qed.

Lemma QueryCourse_Ok (key : string) (values : list string) (w : World)
  (cs : slice Course) (w' : World) :
  QueryCourse key values w = (Ok cs, w') ->
  store w' = store w
  /\ forall c, In c (elems cs) ->
       exists r, In r (courses (store w)) /\ c = aggregate (store w) r.
Proof.
  rewrite QueryCourse_unfold.
  destruct (map_lookup key QueryableKeys); [|discriminate].
  intros H. apply bind_Ok in H as (rows & w1 & H1 & H).
  apply predicate_query_store in H1 as S1.
  apply course_rows_Ok in H as (S & Hin). rewrite S, S1.
  split; [reflexivity|]. intros c Hc.
  destruct (Hin c Hc) as [[] | (r & Hr & ->)].
  exists r. now rewrite <- S1.
Qed.

(** On a healthy handle, under the primary key, the expansion of stored
    CRNs returns their aggregates in order. *)
Lemma course_rows_healthy (rs : list course_row) (acc : list Course)
  (w : World) :
  healthy w -> primary_key (store w) -> incl rs (courses (store w)) ->
  exists w',
    course_rows (map crn_row rs) (make acc) w
    = (Ok (make (acc ++ map (aggregate (store w)) rs)%list), w')
    /\ store w' = store w /\ healthy w'.
Proof.
  revert acc w. induction rs as [|r rs IH]; intros acc w Hw Hpk Hin.
  - exists w. simpl. rewrite app_nil_r. auto.
  - cbn [map course_rows]. unfold bind at 1. cbn [lift crn_row scan_crn].
    assert (Hr : In r (courses (store w))) by (apply Hin; now left).
    destruct (GetCourse_healthy _ _ _ _ Hw
                (primary_key_selects _ _ Hpk Hr)) as (w1 & R1 & S1 & H1).
    rewrite (bind_step _ _ _ _ _ R1). unfold append. cbn [elems].
    destruct (IH (acc ++ [aggregate (store w) r])%list w1 H1) as (w' & R & S & H').
    { now rewrite S1. }
    { rewrite S1. intros x Hx. apply Hin. now right. }
    exists w'. rewrite R, S1, <- app_assoc. simpl.
    split; [reflexivity|]. split; [congruence | exact H'].
Qed.

(** What a healthy handle answers to a predicate that filters [courses]. *)
Lemma QueryCourse_filter (key : string) (values : list string)
  (f : course_row -> bool) (sel : select) (w : World) :
  healthy w -> primary_key (store w) ->
  map_lookup key QueryableKeys <> None ->
  predicate_query key values
  = db_Query sel ->
  query sel (store w) = Ok (map crn_row (filter f (courses (store w)))) ->
  exists w',
    QueryCourse key values w
    = (Ok (make (map (aggregate (store w)) (filter f (courses (store w))))),
       w')
    /\ store w' = store w /\ healthy w'.
Proof.
  intros Hw Hpk Hkey Hq Hsel. rewrite QueryCourse_unfold.
  destruct (map_lookup key QueryableKeys); [|congruence].
  rewrite Hq. unfold bind at 1.
  rewrite (db_Query_answers _ _ (healthy_answers _ Hw)), Hsel.
  match goal with |- context [course_rows _ _ ?w0] => set (w1 := w0) end.
  destruct (course_rows_healthy (filter f (courses (store w))) [] w1)
    as (w' & R & S & H').
  - unfold healthy in *. subst w1. simpl. now rewrite Hw.
  - exact Hpk.
  - intros x Hx. now apply filter_In in Hx.
  - exists w'. rewrite R. auto.
Qed.

Lemma In_aggregates (st : Store) (f : course_row -> bool) (c : Course) :
  In c (map (aggregate st) (filter f (courses st)))
  <-> exists r, In r (courses st) /\ f r = true /\ c = aggregate st r.
Proof.
  rewrite in_map_iff. split.
  - intros (r & <- & H). apply filter_In in H as [H1 H2]. eauto.
  - intros (r & H1 & H2 & ->). exists r. split; [reflexivity|].
    now apply filter_In.
Qed.

(* ================================================================= *)
(** ** OpenDatabase *)

Lemma int64_small (z : Z) :
  (- 2 ^ 63 <= z < 2 ^ 63)%Z -> int64 z = z.
Proof. intros H. unfold int64. rewrite Z.mod_small; lia. Qed.

(** No overflow in [baseDelay * time.Duration(i)] within the retries. *)
Lemma backoff_exact (i : nat) :
  i < maxRetries ->
  int64 (baseDelay * Z.of_nat i) = (baseDelay * Z.of_nat i)%Z.
Proof.
  unfold maxRetries, baseDelay. intros H. apply int64_small. lia.
Qed.

Section OpenLoop.
Variable sql_Open : nat -> Handle + error.

(** The first success ends the loop at once. *)
Lemma open_loop_success (n i k : nat) (h : Handle)
  (db : option Handle) (err : option error) :
  k < n ->
  (forall j, j < k -> exists e, sql_Open (i + j) = inr e) ->
  sql_Open (i + k) = inl h ->
  open_loop sql_Open n i db err
  = ((Some h, None), (failed_attempts i k ++ [Open (i + k)])%list).
Proof.
  revert n i db err. induction k as [|k IH]; intros n i db err Hk Hf Hs.
  - destruct n as [|n]; [lia|]. simpl. rewrite Nat.add_0_r in Hs.
    rewrite Hs, Nat.add_0_r. reflexivity.
  - destruct n as [|n]; [lia|]. simpl.
    destruct (Hf 0) as [e He]; [lia|]. rewrite Nat.add_0_r in He.
    rewrite He.
    rewrite (IH n (S i) None (Some e)).
    + unfold failed_attempts. simpl. now rewrite Nat.add_succ_r.
    + lia.
    + intros j Hj. destruct (Hf (S j)) as [e' He']; [lia|].
      exists e'. now rewrite Nat.add_succ_r in He'.
    + now rewrite Nat.add_succ_r in Hs.
Qed.

(** When every attempt fails, the loop returns the last error, after
    a sleep that follows the last attempt too. *)
Lemma open_loop_failure (n i : nat) (e : error)
  (db : option Handle) (err : option error) :
  (forall j, j < n -> exists e', sql_Open (i + j) = inr e') ->
  sql_Open (i + n) = inr e ->
  open_loop sql_Open (S n) i db err
  = ((None, Some e), failed_attempts i (S n)).
Proof.
  revert i db err. induction n as [|n IH]; intros i db err Hf Hl.
  - simpl. rewrite Nat.add_0_r in Hl. rewrite Hl. reflexivity.
  - destruct (Hf 0) as [e0 He0]; [lia|]. rewrite Nat.add_0_r in He0.
    change (open_loop sql_Open (S (S n)) i db err)
      with (match sql_Open i with
            | inl h => ((Some h, None), [Open i])
            | inr e =>
                let (r, tr) := open_loop sql_Open (S n) (S i) None (Some e) in
                (r, Open i :: Sleep (int64 (baseDelay * Z.of_nat i)) :: tr)
            end).
    rewrite He0, (IH (S i) None (Some e0)).
    + reflexivity.
    + intros j Hj. destruct (Hf (S j)) as [e' He']; [lia|].
      exists e'. now rewrite Nat.add_succ_r in He'.
    + now rewrite Nat.add_succ_r in Hl.
Qed.

Lemma open_loop_attempts (n i : nat) (db : option Handle)
  (err : option error) :
  attempts (snd (open_loop sql_Open n i db err)) <= n.
Proof.
  revert i db err. induction n as [|n IH]; intros i db err; simpl.
  - unfold attempts. simpl. lia.
  - destruct (sql_Open i) as [h|e].
    + unfold attempts. simpl. lia.
    + specialize (IH (S i) None (Some e)).
      destruct (open_loop sql_Open n (S i) None (Some e)) as [r tr].
      unfold attempts in *. simpl in *. lia.
Qed.
End OpenLoop.

(** Between attempts [OpenDatabase] waits 0, 1, 2 and 3 times the base
    delay, as far as it gets. *)
Lemma OpenDatabase_waits (sql_Open : nat -> Handle + error)
  (db : option Handle) :
  exists k,
    k < maxRetries
    /\ waits_between (snd (OpenDatabase sql_Open db))
       = map (fun j => (baseDelay * Z.of_nat j)%Z) (seq 0 k).
Proof.
  unfold OpenDatabase, maxRetries. cbn [open_loop].
  destruct (sql_Open 0); [exists 0; split; [lia | reflexivity]|].
  destruct (sql_Open 1); [exists 1; split; [lia | reflexivity]|].
  destruct (sql_Open 2); [exists 2; split; [lia | reflexivity]|].
  destruct (sql_Open 3); [exists 3; split; [lia | reflexivity]|].
  destruct (sql_Open 4); exists 4; split; try lia; reflexivity.
Qed.

Lemma backoff_trace_exact (k : nat) :
  k <= maxRetries -> failed_attempts 0 k = backoff_trace k.
Proof.
  intros Hk. unfold failed_attempts, backoff_trace.
  rewrite !flat_map_concat_map. f_equal.
  apply map_ext_in. intros j Hj. apply in_seq in Hj.
  rewrite backoff_exact by lia. reflexivity.
Qed.

(** Membership in the answer of a filtering query, on aggregates. *)
Lemma In_aggregates_iff (st : Store) (f : course_row -> bool)
  (P : Course -> Prop) (c : Course) :
  (forall r, f r = true <-> P (aggregate st r)) ->
  In c (map (aggregate st) (filter f (courses st)))
  <-> In c (stored_courses st) /\ P c.
Proof.
  intros HP. rewrite In_aggregates. unfold stored_courses.
  rewrite in_map_iff. split.
  - intros (r & Hr & Hf & ->). split; [eauto | now apply HP].
  - intros [(r & <- & Hr) Hc]. exists r. repeat split; auto. now apply HP.
Qed.

(* ================================================================= *)
(** ** Invariants of the package *)

Lemma keeps_ret {A} (P : World -> Prop) (a : A) : keeps P (ret a).
Proof. intros w H. exact H. Qed.

Lemma keeps_lift {A} (P : World -> Prop) (r : res A) : keeps P (lift r).
Proof. intros w H. exact H. Qed.

Lemma keeps_bind {A B} (P : World -> Prop) (m : M A) (k : A -> M B) :
  keeps P m -> (forall a, keeps P (k a)) -> keeps P (bind m k).
Proof.
  intros Hm Hk w H. unfold bind. specialize (Hm w H).
  destruct (m w) as [[a|e|p] w1]; simpl in *; auto. now apply Hk.
Qed.

Lemma keeps_db_Query (P : Store -> Prop) (s : select) :
  keeps (fun w => P (store w)) (db_Query s).
Proof.
  intros w H. unfold db_Query, send.
  destruct (hd None (faults w)); exact H.
Qed.

Lemma keeps_db_QueryRow (P : Store -> Prop) (s : select) :
  keeps (fun w => P (store w)) (db_QueryRow s).
Proof.
  intros w H. unfold db_QueryRow.
  pose proof (keeps_db_Query P s w H) as H1.
  destruct (db_Query s w). exact H1.
Qed.

Lemma keeps_db_Exec (P : Store -> Prop) (s : dml) :
  (forall st, P st -> P (snd (exec s st))) ->
  keeps (fun w => P (store w)) (db_Exec s).
Proof.
  intros HP w H. unfold db_Exec, send.
  destruct (hd None (faults w)); [exact H|]. simpl.
  specialize (HP (store w) H). destruct (exec s (store w)). exact HP.
Qed.

(** Reading keeps the store. *)
Lemma keeps_GetCourse (P : Store -> Prop) (crn : string) :
  keeps (fun w => P (store w)) (GetCourse crn).
Proof.
  unfold GetCourse.
  apply keeps_bind; [apply keeps_db_QueryRow | intros r].
  apply keeps_bind; [apply keeps_lift | intros [[[[c t] sj] n] d]].
  apply keeps_bind; [apply keeps_db_Query | intros irows].
  apply keeps_bind; [apply keeps_lift | intros ins].
  apply keeps_bind; [apply keeps_db_Query | intros mrows].
  apply keeps_bind; [apply keeps_lift | intros ms].
  apply keeps_ret.
Qed.

Lemma keeps_GetCourseCRNs (P : Store -> Prop) :
  keeps (fun w => P (store w)) GetCourseCRNs.
Proof.
  unfold GetCourseCRNs.
  apply keeps_bind; [apply keeps_db_Query | intros rows; apply keeps_lift].
Qed.

Lemma keeps_course_rows (P : Store -> Prop) (rows : list row)
  (acc : slice Course) :
  keeps (fun w => P (store w)) (course_rows rows acc).
Proof.
  revert acc. induction rows as [|r rows IH]; intros acc.
  - apply keeps_ret.
  - cbn [course_rows].
    apply keeps_bind; [apply keeps_lift | intros crn].
    apply keeps_bind; [apply keeps_GetCourse | intros c; apply IH].
Qed.

Lemma keeps_QueryCourse (P : Store -> Prop) (key : string)
  (values : list string) :
  keeps (fun w => P (store w)) (QueryCourse key values).
Proof.
  rewrite QueryCourse_unfold.
  destruct (map_lookup key QueryableKeys); [|apply keeps_lift].
  apply keeps_bind; [|intros rows; apply keeps_course_rows].
  unfold predicate_query.
  destruct (String.eqb key "title");
    [|destruct (String.eqb key "subject-number")];
    repeat (apply keeps_bind; [apply keeps_lift | intros ?]);
    apply keeps_db_Query.
Qed.

(** Writing keeps the primary key, also when it fails half-way. *)
Lemma keeps_InsertCourse (course : Course) :
  keeps (fun w => primary_key (store w)) (InsertCourse course).
Proof.
  assert (Hi : forall crn l,
             keeps (fun w => primary_key (store w)) (insert_instructors crn l)).
  { intros crn l. induction l as [|i l IH]; [apply keeps_ret|].
    cbn [insert_instructors]. apply keeps_bind; [|intros _; exact IH].
    apply keeps_db_Exec. intros st. apply exec_primary_key. }
  assert (Hm : forall crn l,
             keeps (fun w => primary_key (store w)) (insert_meetings crn l)).
  { intros crn l. induction l as [|i l IH]; [apply keeps_ret|].
    cbn [insert_meetings]. apply keeps_bind; [|intros _; exact IH].
    apply keeps_db_Exec. intros st. apply exec_primary_key. }
  unfold InsertCourse.
  apply keeps_bind;
    [apply keeps_db_Exec; intros st; apply exec_primary_key | intros _].
  apply keeps_bind; [apply Hi | intros _].
  apply keeps_bind; [apply Hm | intros _; apply keeps_ret].
Qed.

Lemma keeps_DeleteCourse (crn : string) :
  keeps (fun w => primary_key (store w)) (DeleteCourse crn).
Proof.
  unfold DeleteCourse.
  repeat (apply keeps_bind;
          [apply keeps_db_Exec; intros st; apply exec_primary_key
          | intros _]).
  apply keeps_ret.
Qed.

(** *** Patterns within the limit *)

Lemma length_wrapped (s : string) :
  String.length ("%" ++ s ++ "%") = S (S (String.length s)).
Proof.
  cbn [String.append String.length]. f_equal.
  induction s as [|a s IH]; [reflexivity|]. cbn [String.append String.length].
  now rewrite IH.
Qed.

Lemma too_complex_wrapped (s : string) :
  (N.of_nat (String.length s) <= 49998)%N ->
  too_complex ("%" ++ s ++ "%") = false.
Proof.
  intros H. unfold too_complex, SQLITE_MAX_LIKE_PATTERN_LENGTH.
  rewrite length_wrapped. apply N.ltb_ge. lia.
Qed.

Lemma like_query_simple (p : string) (evaluated matched : course_row -> bool)
  (l : list course_row) :
  too_complex p = false ->
  like_query p evaluated matched l = Ok (map crn_row (filter matched l)).
Proof. intros H. unfold like_query. now rewrite H. Qed.

(* ================================================================= *)
(** ** The claims *)

(** C1 (as amended).  For every course whose CRN no row of the store
    carries, neither a course row nor a leftover instructor or meeting
    row, [InsertCourse] on a healthy handle succeeds and [GetCourse] with
    its CRN then returns the same course: same CRN, title, subject,
    number and description, and the same instructors and meetings as
    multisets. *)
Theorem InsertCourse_then_GetCourse (course : Course) (w : World) :
  healthy w ->
  course_stored (CRN course) (store w) = false ->
  child_stored (CRN course) (store w) = false ->
  round_trip course w.
Proof.
  intros Hw Hc Hch.
  destruct (InsertCourse_GetCourse_eq course w Hw Hc Hch) as (w1 & w2 & HI & HG).
  exists w1, w2, course. unfold same_course. repeat split; auto.
Qed.

Lemma InsertCourse_then_GetCourse_witness : round_trip systems fresh.
Proof.
  apply (InsertCourse_then_GetCourse systems fresh); reflexivity.
Defined.

(** C1 as stated fails: with no course row for the CRN in the store, but
    instructor and meeting rows left over from a deletion that failed
    half-way, the course read back after the insertion has the leftover
    children too. *)
Lemma InsertCourse_then_GetCourse_orphans :
  healthy orphaned
  /\ course_stored (CRN systems_again) (store orphaned) = false
  /\ fst (GetCourse (CRN systems_again)
            (snd (InsertCourse systems_again orphaned)))
     = Ok systems
  /\ ~ round_trip systems_again orphaned.
Proof.
  split; [reflexivity|]. split; [reflexivity|]. split; [reflexivity|].
  intros (w1 & w2 & got & HI & HG & HS).
  apply (f_equal snd) in HI. cbn [snd] in HI. subst w1.
  apply (f_equal fst) in HG. vm_compute in HG. injection HG as <-.
  destruct HS as (_ & _ & _ & _ & _ & HP & _).
  apply Permutation_length in HP. discriminate HP.
Qed.

(** C2.  For a key outside the whitelist, [QueryCourse] returns the
    unsupported-key error and the world as it was: no statement is sent,
    nothing is read or written, whatever the values. *)
Theorem QueryCourse_unsupported_key (key : string) (values : list string)
  (w : World) :
  key <> "term_crn" -> key <> "title" -> key <> "subject_code" ->
  key <> "course_number" -> key <> "subject-number" ->
  QueryCourse key values w = (Fail (ErrNotQueryable key), w).
Proof.
  intros H1 H2 H3 H4 H5. rewrite QueryCourse_unfold.
  unfold QueryableKeys, map_lookup.
  repeat match goal with
         | H : key <> ?k |- context [String.eqb ?k key] =>
             replace (String.eqb k key) with false
               by (symmetry; apply String.eqb_neq; congruence)
         end.
  reflexivity.
Qed.

Lemma QueryCourse_unsupported_key_witness :
  QueryCourse "description" ["x"] catalog
  = (Fail (ErrNotQueryable "description"), catalog).
Proof.
  apply (QueryCourse_unsupported_key "description" ["x"] catalog);
    discriminate.
Defined.

(** C3 (as amended).  On a healthy handle, for a search string [s] of at
    most 49998 bytes, [QueryCourse("title", s)] returns exactly the
    stored courses whose title matches the LIKE pattern [%s%] as SQLite
    evaluates it: pattern and title are read up to their first NUL byte,
    as UTF-8 characters, [%] stands for any run of characters and [_]
    for any one, and ASCII letters match without regard to case.  When
    [s] is plain text (ASCII without NUL), every course whose title
    contains [s] before its first NUL byte is among them; when [s] holds
    neither [%] nor [_] either, they are exactly the courses whose
    title, read up to its first NUL byte, contains [s] up to the case of
    ASCII letters. *)
Theorem QueryCourse_title (s : string) (more : list string) (w : World) :
  healthy w -> primary_key (store w) ->
  (N.of_nat (String.length s) <= 49998)%N ->
  exists cs w',
    QueryCourse "title" (s :: more) w = (Ok (make cs), w')
    /\ store w' = store w
    /\ (forall c,
          In c cs
          <-> In c (stored_courses (store w))
              /\ like ("%" ++ s ++ "%") (Title (Data c)) = true)
    /\ (plain s = true ->
        forall c,
          In c (stored_courses (store w)) ->
          contains (c_string (Title (Data c))) s ->
          In c cs)
    /\ (plain s = true -> wildcard_free s = true ->
        forall c,
          In c cs
          <-> In c (stored_courses (store w))
              /\ contains_fold (c_string (Title (Data c))) s).
Proof.
  intros Hw Hpk Hlen.
  destruct (QueryCourse_filter "title" (s :: more)
              (title_like ("%" ++ s ++ "%"))
              (SelectCRNsTitleLike ("%" ++ s ++ "%")) w Hw Hpk)
    as (w' & R & S & _); [discriminate | reflexivity | |].
  { cbn [query]. apply like_query_simple. now apply too_complex_wrapped. }
  eexists. exists w'. split; [exact R|]. split; [exact S|].
  assert (H1 : forall c,
             In c (map (aggregate (store w))
                     (filter (title_like ("%" ++ s ++ "%"))
                        (courses (store w))))
             <-> In c (stored_courses (store w))
                 /\ like ("%" ++ s ++ "%") (Title (Data c)) = true).
  { intros c.
    apply (In_aggregates_iff (store w) _
             (fun c => like ("%" ++ s ++ "%") (Title (Data c)) = true)).
    intros r. reflexivity. }
  split; [exact H1|]. split.
  - intros Hs c Hc Hin. apply H1. split; [exact Hc|]. now apply like_contains.
  - intros Hs Hwf c. rewrite H1, (like_contains_fold _ _ Hs Hwf). reflexivity.
Qed.

Lemma catalog_primary_key : primary_key (store catalog).
Proof.
  unfold catalog.
  repeat constructor; simpl; intuition discriminate.
Defined.

Lemma QueryCourse_title_witness :
  exists cs w',
    QueryCourse "title" ["Intro"] catalog = (Ok (make cs), w')
    /\ forall c,
         In c (stored_courses (store catalog)) ->
         contains (c_string (Title (Data c))) "Intro" -> In c cs.
Proof.
  destruct (QueryCourse_title "Intro" [] catalog)
    as (cs & w' & R & _ & _ & H & _).
  - reflexivity.
  - exact catalog_primary_key.
  - vm_compute. discriminate.
  - exists cs, w'. split; [exact R | exact (H eq_refl)].
Defined.

(** C3 as stated fails: asked for the titles that contain an underscore,
    the query returns the courses of the catalog, whose titles contain
    none. *)
Lemma QueryCourse_title_wildcard :
  (exists w',
     QueryCourse "title" ["_"] catalog = (Ok (make [systems; advanced]), w'))
  /\ strings_Contains (Title (Data advanced)) "_" = false
  /\ ~ title_query_by_substring catalog "_".
Proof.
  split; [eexists; reflexivity|]. split; [reflexivity|].
  intros (cs & w' & R & H).
  apply (f_equal fst) in R. vm_compute in R. injection R as <-.
  destruct (H advanced) as [H1 _].
  destruct H1 as [_ Hc]; [vm_compute; auto|].
  apply strings_Contains_spec in Hc. discriminate Hc.
Qed.

(** C4 (as amended).  On a healthy handle, for a second value [b] of at
    most 49998 bytes, [QueryCourse("subject-number", a, b)] returns
    exactly the stored courses whose subject code is [a], byte for byte,
    and whose number matches the LIKE pattern [%b%] as SQLite evaluates
    it: pattern and number are read up to their first NUL byte, as UTF-8
    characters, [%] stands for any run of characters and [_] for any
    one, and ASCII letters match without regard to case.  When [b] is
    plain text (ASCII without NUL), every course of subject [a] whose
    number contains [b] before its first NUL byte is among them,
    wherever in the number [b] occurs; when [b] holds neither [%] nor
    [_] either, they are exactly the courses of subject [a] whose
    number, read up to its first NUL byte, contains [b] up to the case
    of ASCII letters. *)
Theorem QueryCourse_subject_number (a b : string) (more : list string)
  (w : World) :
  healthy w -> primary_key (store w) ->
  (N.of_nat (String.length b) <= 49998)%N ->
  exists cs w',
    QueryCourse "subject-number" (a :: b :: more) w = (Ok (make cs), w')
    /\ store w' = store w
    /\ (forall c,
          In c cs
          <-> In c (stored_courses (store w))
              /\ Subject (Data c) = a
              /\ like ("%" ++ b ++ "%") (Number (Data c)) = true)
    /\ (plain b = true ->
        forall c,
          In c (stored_courses (store w)) ->
          Subject (Data c) = a ->
          contains (c_string (Number (Data c))) b ->
          In c cs)
    /\ (plain b = true -> wildcard_free b = true ->
        forall c,
          In c cs
          <-> In c (stored_courses (store w))
              /\ Subject (Data c) = a
              /\ contains_fold (c_string (Number (Data c))) b).
Proof.
  intros Hw Hpk Hlen.
  destruct (QueryCourse_filter "subject-number" (a :: b :: more)
              (subject_number_like a ("%" ++ b ++ "%"))
              (SelectCRNsSubjectNumberLike a ("%" ++ b ++ "%")) w Hw Hpk)
    as (w' & R & S & _); [discriminate | reflexivity | |].
  { cbn [query]. apply like_query_simple. now apply too_complex_wrapped. }
  eexists. exists w'. split; [exact R|]. split; [exact S|].
  assert (H1 : forall c,
             In c (map (aggregate (store w))
                     (filter (subject_number_like a ("%" ++ b ++ "%"))
                        (courses (store w))))
             <-> In c (stored_courses (store w))
                 /\ Subject (Data c) = a
                 /\ like ("%" ++ b ++ "%") (Number (Data c)) = true).
  { intros c.
    apply (In_aggregates_iff (store w) _
             (fun c => Subject (Data c) = a
                       /\ like ("%" ++ b ++ "%") (Number (Data c)) = true)).
    intros r. unfold subject_number_like. simpl.
    now rewrite andb_true_iff, String.eqb_eq. }
  split; [exact H1|]. split.
  - intros Hs c Hc Ha Hb. apply H1. split; [exact Hc|]. split; [exact Ha|].
    now apply like_contains.
  - intros Hs Hwf c. rewrite H1, (like_contains_fold _ _ Hs Hwf). reflexivity.
Qed.

Lemma QueryCourse_subject_number_witness :
  exists w',
    QueryCourse "subject-number" ["CS"; "101"] catalog
    = (Ok (make [systems; advanced]), w').
Proof.
  destruct (QueryCourse_subject_number "CS" "101" [] catalog)
    as (cs & w' & R & _).
  - reflexivity.
  - exact catalog_primary_key.
  - vm_compute. discriminate.
  - exists w'. rewrite R. f_equal. f_equal.
    apply (f_equal fst) in R. vm_compute in R. injection R as <-.
    reflexivity.
Defined.

(** C4 as stated fails: asked for the numbers that contain an underscore,
    the query returns the courses of the subject, whose numbers contain
    none. *)
Lemma QueryCourse_subject_number_wildcard :
  (exists w',
     QueryCourse "subject-number" ["CS"; "_"] catalog
     = (Ok (make [systems; advanced]), w'))
  /\ strings_Contains (Number (Data advanced)) "_" = false
  /\ ~ subject_number_query_by_substring catalog "CS" "_".
Proof.
  split; [eexists; reflexivity|]. split; [reflexivity|].
  intros (cs & w' & R & H).
  apply (f_equal fst) in R. vm_compute in R. injection R as <-.
  destruct (H advanced) as [H1 _].
  destruct H1 as (_ & _ & Hc); [vm_compute; auto|].
  apply strings_Contains_spec in Hc. discriminate Hc.
Qed.

(** C5 (as amended).  [OpenDatabase] calls [sql.Open] at most 5 times.
    After a failed attempt it sleeps the base delay times the zero-based
    index of that attempt, so the waits between consecutive attempts are
    0, 1, 2 and 3 times the base delay.  The first success, be it at the
    fifth attempt, ends the loop at once with the handle and no error.
    When all five attempts fail, [OpenDatabase] sleeps 4 times the base
    delay after the last one and then returns the last error. *)
Theorem OpenDatabase_retries (sql_Open : nat -> Handle + error)
  (db : option Handle) :
  attempts (snd (OpenDatabase sql_Open db)) <= 5
  /\ (exists k,
        k < 5
        /\ waits_between (snd (OpenDatabase sql_Open db))
           = map (fun j => (baseDelay * Z.of_nat j)%Z) (seq 0 k))
  /\ (forall k h,
        k < 5 ->
        (forall j, j < k -> exists e, sql_Open j = inr e) ->
        sql_Open k = inl h ->
        OpenDatabase sql_Open db
        = ((Some h, None), (backoff_trace k ++ [Open k])%list))
  /\ (forall e,
        (forall j, j < 4 -> exists e', sql_Open j = inr e') ->
        sql_Open 4 = inr e ->
        OpenDatabase sql_Open db
        = ((None, Some e),
           (backoff_trace 4 ++ [Open 4; Sleep (4 * baseDelay)])%list)).
Proof.
  split; [apply open_loop_attempts|].
  split; [apply OpenDatabase_waits|]. split.
  - intros k h Hk Hf Hs. unfold OpenDatabase.
    rewrite (open_loop_success sql_Open maxRetries 0 k h db None Hk Hf Hs).
    rewrite backoff_trace_exact by (unfold maxRetries; lia). reflexivity.
  - intros e Hf Hl. unfold OpenDatabase, maxRetries.
    rewrite (open_loop_failure sql_Open 4 0 e db None Hf Hl).
    rewrite backoff_trace_exact by (unfold maxRetries; lia). reflexivity.
Qed.

Lemma OpenDatabase_retries_witness :
  OpenDatabase opens_at_last None
  = ((Some 1, None), (backoff_trace 4 ++ [Open 4])%list).
Proof.
  apply (proj1 (proj2 (proj2 (OpenDatabase_retries opens_at_last None)))).
  - lia.
  - intros j Hj. exists open_error.
    do 4 (destruct j as [|j]; [reflexivity|]). lia.
  - reflexivity.
Defined.

(** C5 as stated fails: when all five attempts fail, the waits between
    the attempts are 0, 1, 2 and 3 times the base delay; the wait of 4
    times the base delay comes last in the trace, after the fifth
    attempt, and none lies between two attempts. *)
Lemma OpenDatabase_no_fourfold_wait_between_attempts :
  waits_between (snd (OpenDatabase never_opens None))
  = [0; baseDelay; 2 * baseDelay; 3 * baseDelay]%Z
  /\ last (snd (OpenDatabase never_opens None)) (Open 0)
     = Sleep (4 * baseDelay)
  /\ ~ In (4 * baseDelay)%Z
         (waits_between (snd (OpenDatabase never_opens None))).
Proof.
  split; [reflexivity|]. split; [reflexivity|].
  vm_compute. intuition discriminate.
Qed.

(** C6.  When a course with the CRN is stored and the store answers,
    [InsertCourse] fails with the uniqueness violation of the primary
    key, and the store, with the stored course row and its instructor and
    meeting rows, is as it was. *)
Theorem InsertCourse_duplicate (course : Course) (w : World) :
  answers_next w ->
  course_stored (CRN course) (store w) = true ->
  exists w',
    InsertCourse course w = (Fail (ErrUnique "courses.term_crn"), w')
    /\ store w' = store w.
Proof.
  intros Hw Hc. unfold InsertCourse. unfold bind at 1.
  rewrite (db_Exec_answers _ _ Hw). cbn [exec].
  unfold course_stored in Hc. rewrite Hc. cbn [fst snd].
  eexists. split; reflexivity.
Qed.

Lemma InsertCourse_duplicate_witness :
  exists w',
    InsertCourse systems_again catalog
    = (Fail (ErrUnique "courses.term_crn"), w')
    /\ store w' = store catalog.
Proof.
  apply (InsertCourse_duplicate systems_again catalog); reflexivity.
Defined.

(** C7.  After [DeleteCourse(crn)] has succeeded, no course, instructor
    or meeting row carries the CRN; [GetCourse(crn)] cannot succeed and,
    when the store answers, fails with [sql.ErrNoRows]; and whatever
    [QueryCourse] returns, for any key and values, holds no course with
    that CRN. *)
Theorem DeleteCourse_removes (crn : string) (w w1 : World) :
  DeleteCourse crn w = (Ok tt, w1) ->
  course_stored crn (store w1) = false
  /\ child_stored crn (store w1) = false
  /\ (forall got w2, GetCourse crn w1 <> (Ok got, w2))
  /\ (answers_next w1 -> fst (GetCourse crn w1) = Fail ErrNoRows)
  /\ (forall key values cs w2,
        QueryCourse key values w1 = (Ok cs, w2) ->
        forall c, In c (elems cs) -> CRN c <> crn).
Proof.
  intros H. apply DeleteCourse_Ok in H.
  destruct (without_clean crn (store w)) as [Hc Hch].
  rewrite <- H in Hc, Hch.
  assert (Hf : filter (has_crn crn) (courses (store w1)) = [])
    by now apply existsb_false_filter.
  split; [exact Hc|]. split; [exact Hch|]. split; [|split].
  - intros got w2 HG. apply GetCourse_Ok in HG as (_ & r & rest & E & _).
    rewrite Hf in E. discriminate E.
  - intros Hw. now apply GetCourse_missing.
  - intros key values cs w2 HQ c Hin E.
    apply QueryCourse_Ok in HQ as (_ & HQ).
    destruct (HQ c Hin) as (r & Hr & ->). simpl in E.
    assert (course_stored crn (store w1) = true); [|congruence].
    apply course_stored_In. eauto.
Qed.

Lemma DeleteCourse_removes_witness :
  fst (GetCourse "202410-12345"
         (snd (DeleteCourse "202410-12345" catalog)))
  = Fail ErrNoRows.
Proof.
  apply (DeleteCourse_removes "202410-12345" catalog
           (snd (DeleteCourse "202410-12345" catalog)));
    reflexivity.
Defined.

(** C8 (as amended).  On a healthy handle [DeleteCourse] with a CRN that
    no course row carries returns no error, not a not-found failure.  The
    course table is as it was; the instructor and meeting rows that
    carry the CRN, left over from an earlier failure, are deleted; and
    when there are none the whole store is as it was. *)
Theorem DeleteCourse_missing (crn : string) (w : World) :
  healthy w ->
  course_stored crn (store w) = false ->
  exists w',
    DeleteCourse crn w = (Ok tt, w')
    /\ courses (store w') = courses (store w)
    /\ instructors (store w')
       = filter (fun r => negb (instructor_of_crn crn r)) (instructors (store w))
    /\ meetings (store w')
       = filter (fun r => negb (meeting_of_crn crn r)) (meetings (store w))
    /\ child_stored crn (store w') = false
    /\ (child_stored crn (store w) = false -> store w' = store w).
Proof.
  intros Hw Hc.
  destruct (DeleteCourse_healthy crn w Hw) as (w' & R & S & _).
  destruct (without_absent crn (store w) Hc) as [H1 H2].
  destruct (without_clean crn (store w)) as [_ H3].
  exists w'. rewrite S. repeat split; auto.
Qed.

Lemma DeleteCourse_missing_witness :
  exists w',
    DeleteCourse "202410-00000" catalog = (Ok tt, w')
    /\ courses (store w') = courses (store catalog)
    /\ store w' = store catalog.
Proof.
  destruct (DeleteCourse_missing "202410-00000" catalog)
    as (w' & R & C & _ & _ & _ & S); [reflexivity | reflexivity |].
  exists w'. split; [exact R|]. split; [exact C|]. now apply S.
Defined.

(** C8 as stated fails: with no course row for the CRN in the store, but
    instructor and meeting rows left over from a deletion that failed
    half-way, [DeleteCourse] returns no error and is no no-op: it deletes
    the leftover rows. *)
Lemma DeleteCourse_missing_orphans :
  healthy orphaned
  /\ course_stored "202410-12345" (store orphaned) = false
  /\ fst (DeleteCourse "202410-12345" orphaned) = Ok tt
  /\ instructors (store orphaned) <> []
  /\ instructors (store (snd (DeleteCourse "202410-12345" orphaned))) = []
  /\ ~ silent_no_op "202410-12345" orphaned.
Proof.
  split; [reflexivity|]. split; [reflexivity|]. split; [reflexivity|].
  split; [discriminate|]. split; [reflexivity|].
  intros (w' & R & S).
  apply (f_equal snd) in R. cbn [snd] in R. subst w'.
  apply (f_equal instructors) in S. discriminate S.
Qed.

(** C9.  On a store without courses that answers, [GetCourseCRNs]
    returns no error and an allocated, empty slice, not a nil one. *)
Theorem GetCourseCRNs_empty (w : World) :
  answers_next w ->
  courses (store w) = [] ->
  exists w',
    GetCourseCRNs w = (Ok (make []), w') /\ store w' = store w.
Proof.
  intros Hw Hc. unfold GetCourseCRNs, bind.
  rewrite (db_Query_answers _ _ Hw). cbn [query]. rewrite Hc.
  eexists. split; reflexivity.
Qed.

Lemma GetCourseCRNs_empty_witness :
  exists w', GetCourseCRNs fresh = (Ok (make []), w') /\ store w' = store fresh.
Proof. apply (GetCourseCRNs_empty fresh); reflexivity. Defined.

(** C10.  With a whitelisted key and too few values [QueryCourse] panics
    on the index, before any statement is sent: with the key [title] and
    no value, with the key [subject-number] and one value, and with any
    whitelisted key and no value. *)
Theorem QueryCourse_panics (w : World) :
  QueryCourse "title" [] w = (Panic (IndexOutOfRange 0 0), w)
  /\ (forall v,
        QueryCourse "subject-number" [v] w = (Panic (IndexOutOfRange 1 1), w))
  /\ QueryCourse "subject-number" [] w = (Panic (IndexOutOfRange 0 0), w)
  /\ QueryCourse "term_crn" [] w = (Panic (IndexOutOfRange 0 0), w)
  /\ QueryCourse "subject_code" [] w = (Panic (IndexOutOfRange 0 0), w)
  /\ QueryCourse "course_number" [] w = (Panic (IndexOutOfRange 0 0), w).
Proof. repeat split; reflexivity. Qed.

(* ================================================================= *)
(** ** Further properties: reading *)

Lemma has_crn_eq (crn : string) (r : course_row) :
  has_crn crn r = true -> term_crn r = crn.
Proof. unfold has_crn. apply String.eqb_eq. Qed.

(** On a healthy handle the answer of [GetCourse] is a function of the
    rows that carry the CRN. *)
Lemma GetCourse_healthy_fst (crn : string) (w : World) :
  healthy w -> fst (GetCourse crn w) = get_result (rows_of crn (store w)).
Proof.
  intros Hw. unfold rows_of, get_result.
  destruct (filter (has_crn crn) (courses (store w))) as [|r rest] eqn:Hf.
  - apply GetCourse_missing; auto using healthy_answers.
  - destruct (GetCourse_healthy _ _ _ _ Hw Hf) as (w' & R & _).
    rewrite R. cbn [fst].
    assert (Hr : In r (filter (has_crn crn) (courses (store w))))
      by (rewrite Hf; now left).
    apply filter_In in Hr as [_ Hr]. apply has_crn_eq in Hr.
    unfold aggregate, course_of. rewrite Hr. reflexivity.
Qed.

(** X1.  On a healthy handle, under the primary key, [GetCourse] with the
    CRN of a stored course row returns the fields of that row with the
    instructors and meetings of all rows that carry the CRN, in scan
    order and without their ids.  It sends three statements, the course,
    the instructors and the meetings query in this order, and leaves the
    store as it was. *)
Theorem GetCourse_found (r : course_row) (w : World) :
  healthy w -> primary_key (store w) -> In r (courses (store w)) ->
  GetCourse (term_crn r) w
  = (Ok (aggregate (store w) r),
     mkWorld (store w) []
       (log w ++ [(SELECT_COUSE_STATEMENT, [term_crn r]);
                  (SELECT_INSTRUCTORS_STATEMENT, [term_crn r]);
                  (SELECT_MEETINGS_STATEMENT, [term_crn r])])).
Proof.
  intros Hw Hpk Hr.
  pose proof (primary_key_selects _ _ Hpk Hr) as Hf.
  destruct w as [st fs lg]. unfold healthy in Hw. simpl in Hw, Hf, Hr |- *.
  subst fs.
  unfold GetCourse, bind, db_QueryRow, db_Query, send, lift, ret.
  cbn [faults store log hd tl query Row_Scan select_text]. rewrite Hf.
  cbn [map scan_course course_fields].
  cbn [faults store log hd tl query select_text].
  rewrite instructor_rows_fields, meeting_rows_fields.
  rewrite <- !app_assoc. reflexivity.
Qed.

Lemma GetCourse_found_witness :
  fst (GetCourse "202410-54321" catalog) = Ok advanced.
Proof.
  set (r := mkCourseRow "202410-54321" "Advanced Systems" "CS" "101"
              "Distributed systems").
  change (fst (GetCourse (term_crn r) catalog) = Ok advanced).
  rewrite (GetCourse_found r catalog).
  - reflexivity.
  - reflexivity.
  - exact catalog_primary_key.
  - right. left. reflexivity.
Defined.

(** X2.  When the store answers and holds no course row with the CRN,
    [GetCourse] fails with [sql.ErrNoRows] after the course query alone:
    the instructors and meetings are not asked for, also when rows of
    theirs carry the CRN. *)
Theorem GetCourse_not_found (crn : string) (w : World) :
  answers_next w ->
  course_stored crn (store w) = false ->
  GetCourse crn w
  = (Fail ErrNoRows,
     mkWorld (store w) (tl (faults w))
       (log w ++ [(SELECT_COUSE_STATEMENT, [crn])])).
Proof.
  intros Hw Hc. unfold GetCourse, db_QueryRow. unfold bind at 1.
  rewrite (db_Query_answers _ _ Hw). cbn [query select_text].
  unfold course_stored in Hc. rewrite (existsb_false_filter _ _ Hc).
  reflexivity.
Qed.

Lemma GetCourse_not_found_witness :
  fst (GetCourse "202410-12345" orphaned) = Fail ErrNoRows.
Proof.
  rewrite (GetCourse_not_found "202410-12345" orphaned); reflexivity.
Defined.

(** X3.  [GetCourse], [GetCourseCRNs] and [QueryCourse] leave the store
    as it was, whatever they return and whatever fails. *)
Theorem reads_keep_store (crn key : string) (values : list string)
  (w : World) :
  store (snd (GetCourse crn w)) = store w
  /\ store (snd (GetCourseCRNs w)) = store w
  /\ store (snd (QueryCourse key values w)) = store w.
Proof.
  split; [|split].
  - now apply (keeps_GetCourse (fun st => st = store w)).
  - now apply (keeps_GetCourseCRNs (fun st => st = store w)).
  - now apply (keeps_QueryCourse (fun st => st = store w)).
Qed.

(** X4.  [InsertCourse] and [DeleteCourse] keep the CRNs of the course
    table distinct, also when a statement of theirs fails half-way. *)
Theorem writes_keep_primary_key (course : Course) (crn : string) (w : World) :
  primary_key (store w) ->
  primary_key (store (snd (InsertCourse course w)))
  /\ primary_key (store (snd (DeleteCourse crn w))).
Proof.
  intros H. split.
  - now apply keeps_InsertCourse.
  - now apply keeps_DeleteCourse.
Qed.

Lemma writes_keep_primary_key_witness :
  primary_key (store (snd (InsertCourse systems_again catalog)))
  /\ primary_key (store (snd (DeleteCourse "202410-12345" catalog))).
Proof.
  apply (writes_keep_primary_key systems_again "202410-12345" catalog).
  exact catalog_primary_key.
Defined.

(** X5.  When the store answers, [GetCourseCRNs] returns the CRNs of all
    course rows in the order of the index of the primary key: each
    stored CRN once and no other, in ascending order byte by byte,
    whatever the order in which the courses were inserted. *)
Theorem GetCourseCRNs_lists_all (w : World) :
  answers_next w -> primary_key (store w) ->
  exists crns w',
    GetCourseCRNs w = (Ok (make crns), w')
    /\ store w' = store w
    /\ NoDup crns
    /\ Sorted (fun a b => String.leb a b = true) crns
    /\ forall crn, In crn crns <-> course_stored crn (store w) = true.
Proof.
  intros Hw Hpk.
  pose proof (GetCourseCRNs_answers w Hw) as R.
  pose proof (keeps_GetCourseCRNs (fun st => st = store w) w eq_refl) as S.
  destruct (GetCourseCRNs w) as [r w']. cbn [fst snd] in R, S. subst r.
  pose proof (Permutation_map term_crn (index_order_perm (courses (store w))))
    as HP.
  exists (map term_crn (index_order (courses (store w)))), w'.
  split; [reflexivity|]. split; [exact S|]. split; [|split].
  - apply (Permutation_NoDup (Permutation_sym HP)). exact Hpk.
  - apply index_order_sorted.
  - intros crn. split.
    + intros H. apply (Permutation_in _ HP) in H.
      apply in_map_iff in H as (r & E & H). apply course_stored_In. eauto.
    + intros H. apply course_stored_In in H as (r & H & E).
      apply (Permutation_in _ (Permutation_sym HP)).
      apply in_map_iff. eauto.
Qed.

Lemma GetCourseCRNs_lists_all_witness :
  exists w',
    GetCourseCRNs catalog = (Ok (make ["202410-12345"; "202410-54321"]), w').
Proof.
  destruct (GetCourseCRNs_lists_all catalog) as (crns & w' & R & _).
  - reflexivity.
  - exact catalog_primary_key.
  - exists w'. rewrite R. pose proof (f_equal fst R) as E.
    vm_compute in E. injection E as <-. reflexivity.
Defined.

(* ================================================================= *)
(** ** Further properties: writing *)

Lemma keeps_healthy_db_Exec (s : dml) : keeps healthy (db_Exec s).
Proof.
  intros w H. unfold healthy, db_Exec, send in *. rewrite H. simpl.
  destruct (exec s (store w)); reflexivity.
Qed.

Lemma keeps_healthy_InsertCourse (course : Course) :
  keeps healthy (InsertCourse course).
Proof.
  unfold InsertCourse.
  apply keeps_bind; [apply keeps_healthy_db_Exec | intros _].
  apply keeps_bind; [|intros _].
  { induction (Instructors (Data course)) as [|i l IH]; [apply keeps_ret|].
    cbn [insert_instructors].
    apply keeps_bind; [apply keeps_healthy_db_Exec | intros _; exact IH]. }
  apply keeps_bind; [|intros _; apply keeps_ret].
  induction (Meetings (Data course)) as [|i l IH]; [apply keeps_ret|].
  cbn [insert_meetings].
  apply keeps_bind; [apply keeps_healthy_db_Exec | intros _; exact IH].
Qed.

Lemma keeps_healthy_DeleteCourse (crn : string) :
  keeps healthy (DeleteCourse crn).
Proof.
  unfold DeleteCourse.
  repeat (apply keeps_bind; [apply keeps_healthy_db_Exec | intros _]).
  apply keeps_ret.
Qed.

Lemma filter_filter_other {A} (f g : A -> bool) (l : list A) :
  (forall a, f a = true -> g a = true) ->
  filter f (filter g l) = filter f l.
Proof.
  intros H. induction l as [|a l IH]; simpl; [reflexivity|].
  destruct (g a) eqn:G; simpl.
  - now rewrite IH.
  - destruct (f a) eqn:F; [|exact IH]. apply H in F. congruence.
Qed.

Lemma filter_none {A} (f : A -> bool) (l : list A) :
  Forall (fun a => f a = true) l -> filter (fun a => negb (f a)) l = [].
Proof.
  induction 1 as [|a l Ha _ IH]; simpl; [reflexivity|]. now rewrite Ha.
Qed.

Lemma other_crn (crn crn' x : string) :
  crn <> crn' -> String.eqb x crn' = true -> negb (String.eqb x crn) = true.
Proof.
  intros H E. apply String.eqb_eq in E. subst x.
  apply negb_true_iff. apply String.eqb_neq. congruence.
Qed.

(** A statement about one CRN leaves the rows of every other CRN. *)
Lemma exec_frame (s : dml) (crn' : string) (st : Store) :
  dml_crn s <> crn' -> rows_of crn' (snd (exec s st)) = rows_of crn' st.
Proof.
  intros H. assert (E : String.eqb (dml_crn s) crn' = false)
    by now apply String.eqb_neq.
  unfold rows_of. destruct s; simpl in *.
  - destruct (existsb (has_crn crn) (courses st)); [reflexivity|]. simpl.
    rewrite filter_app. simpl. unfold has_crn at 2. simpl. rewrite E.
    now rewrite app_nil_r.
  - rewrite filter_app. simpl. unfold instructor_of_crn at 2. simpl.
    rewrite E. now rewrite app_nil_r.
  - rewrite filter_app. simpl. unfold meeting_of_crn at 2. simpl.
    rewrite E. now rewrite app_nil_r.
  - rewrite filter_filter_other; [reflexivity|].
    intros a. unfold has_crn. now apply other_crn.
  - rewrite filter_filter_other; [reflexivity|].
    intros a. unfold instructor_of_crn. now apply other_crn.
  - rewrite filter_filter_other; [reflexivity|].
    intros a. unfold meeting_of_crn. now apply other_crn.
Qed.

Lemma keeps_rows_InsertCourse (course : Course) (crn' : string)
  (v : list course_row * list instructor_row * list meeting_row) :
  crn' <> CRN course ->
  keeps (fun w => rows_of crn' (store w) = v) (InsertCourse course).
Proof.
  intros H.
  assert (Hs : forall s, dml_crn s = CRN course ->
             keeps (fun w => rows_of crn' (store w) = v) (db_Exec s)).
  { intros s E. apply (keeps_db_Exec (fun st => rows_of crn' st = v)).
    intros st <-. apply exec_frame. congruence. }
  unfold InsertCourse.
  apply keeps_bind; [now apply Hs | intros _].
  apply keeps_bind; [|intros _].
  { induction (Instructors (Data course)) as [|i l IH]; [apply keeps_ret|].
    cbn [insert_instructors].
    apply keeps_bind; [now apply Hs | intros _; exact IH]. }
  apply keeps_bind; [|intros _; apply keeps_ret].
  induction (Meetings (Data course)) as [|i l IH]; [apply keeps_ret|].
  cbn [insert_meetings].
  apply keeps_bind; [now apply Hs | intros _; exact IH].
Qed.

Lemma keeps_rows_DeleteCourse (crn crn' : string)
  (v : list course_row * list instructor_row * list meeting_row) :
  crn' <> crn ->
  keeps (fun w => rows_of crn' (store w) = v) (DeleteCourse crn).
Proof.
  intros H. unfold DeleteCourse.
  repeat (apply keeps_bind;
          [apply (keeps_db_Exec (fun st => rows_of crn' st = v));
           intros st <-; apply exec_frame; simpl; congruence
          | intros _]).
  apply keeps_ret.
Qed.

(** X6.  [InsertCourse] leaves the rows that carry another CRN as they
    were, also when it fails half-way; on a healthy handle [GetCourse]
    with another CRN returns after it what it returned before. *)
Theorem InsertCourse_frame (course : Course) (crn' : string) (w : World) :
  crn' <> CRN course ->
  rows_of crn' (store (snd (InsertCourse course w))) = rows_of crn' (store w)
  /\ (healthy w ->
      fst (GetCourse crn' (snd (InsertCourse course w)))
      = fst (GetCourse crn' w)).
Proof.
  intros H.
  assert (R : rows_of crn' (store (snd (InsertCourse course w)))
              = rows_of crn' (store w))
    by now apply keeps_rows_InsertCourse.
  split; [exact R|]. intros Hw.
  rewrite !GetCourse_healthy_fst, R; auto.
  now apply keeps_healthy_InsertCourse.
Qed.

Lemma InsertCourse_frame_witness :
  fst (GetCourse "202410-12345" (snd (InsertCourse advanced
                                        (snd (InsertCourse systems fresh)))))
  = fst (GetCourse "202410-12345" (snd (InsertCourse systems fresh))).
Proof.
  apply (InsertCourse_frame advanced "202410-12345"
           (snd (InsertCourse systems fresh))).
  - discriminate.
  - reflexivity.
Defined.

(** X7.  [DeleteCourse] leaves the rows that carry another CRN as they
    were, also when it fails half-way; on a healthy handle [GetCourse]
    with another CRN returns after it what it returned before. *)
Theorem DeleteCourse_frame (crn crn' : string) (w : World) :
  crn' <> crn ->
  rows_of crn' (store (snd (DeleteCourse crn w))) = rows_of crn' (store w)
  /\ (healthy w ->
      fst (GetCourse crn' (snd (DeleteCourse crn w)))
      = fst (GetCourse crn' w)).
Proof.
  intros H.
  assert (R : rows_of crn' (store (snd (DeleteCourse crn w)))
              = rows_of crn' (store w))
    by now apply keeps_rows_DeleteCourse.
  split; [exact R|]. intros Hw.
  rewrite !GetCourse_healthy_fst, R; auto.
  now apply keeps_healthy_DeleteCourse.
Qed.

Lemma DeleteCourse_frame_witness :
  fst (GetCourse "202410-54321" (snd (DeleteCourse "202410-12345" catalog)))
  = fst (GetCourse "202410-54321" catalog).
Proof.
  apply (DeleteCourse_frame "202410-12345" "202410-54321" catalog).
  - discriminate.
  - reflexivity.
Defined.

(** The store after [InsertCourse] on a healthy handle, for a CRN that
    is not stored: one course row and one row per instructor and meeting
    are appended, the children in the order of the course's lists and
    tagged with its CRN. *)
Lemma InsertCourse_healthy_store (course : Course) (w : World) :
  healthy w ->
  course_stored (CRN course) (store w) = false ->
  exists w' irows mrows,
    InsertCourse course w = (Ok tt, w')
    /\ healthy w'
    /\ courses (store w') = (courses (store w) ++ [row_of_course course])%list
    /\ instructors (store w') = (instructors (store w) ++ irows)%list
    /\ map instructor_of_row irows = Instructors (Data course)
    /\ Forall (fun r => instructor_of_crn (CRN course) r = true) irows
    /\ meetings (store w') = (meetings (store w) ++ mrows)%list
    /\ map meeting_of_row mrows = Meetings (Data course)
    /\ Forall (fun r => meeting_of_crn (CRN course) r = true) mrows.
Proof.
  intros Hw Hc. unfold course_stored in Hc.
  unfold InsertCourse. unfold bind at 1.
  rewrite (db_Exec_answers _ _ (healthy_answers _ Hw)).
  cbn [exec]. rewrite Hc. cbn [fst snd].
  match goal with |- context [bind (insert_instructors _ _) _ ?w0] =>
    set (wa := w0)
  end.
  assert (Ha : healthy wa)
    by (unfold healthy in *; subst wa; simpl; now rewrite Hw).
  destruct (insert_instructors_healthy (CRN course)
              (Instructors (Data course)) wa Ha)
    as (wb & Rb & Hb & Cb & Mb & irows & Ib & Il & Iall).
  destruct (insert_meetings_healthy (CRN course)
              (Meetings (Data course)) wb Hb)
    as (wc & Rc & Hwc & Cc & Ic & mrows & Mc & Ml & Mall).
  rewrite (bind_step _ _ _ _ _ Rb), (bind_step _ _ _ _ _ Rc).
  exists wc, irows, mrows. unfold ret.
  rewrite Cc, Cb, Ic, Ib, Mc, Mb. subst wa. cbn [store courses instructors meetings].
  repeat split; auto.
Qed.

Lemma map_filter_crn (crn : string) (l : list course_row) :
  map term_crn (filter (fun r => negb (has_crn crn r)) l)
  = filter (fun c => negb (String.eqb c crn)) (map term_crn l).
Proof.
  induction l as [|r l IH]; simpl; [reflexivity|]. unfold has_crn at 1.
  destruct (String.eqb (term_crn r) crn); simpl; now rewrite IH.
Qed.

(** X8.  On a healthy handle, after [InsertCourse] of a course whose CRN
    is not stored, [GetCourseCRNs] returns the CRNs it returned before
    and the new one, each as often as before, in ascending order: the new
    CRN stands where the order puts it, not at the end. *)
Theorem InsertCourse_then_GetCourseCRNs (course : Course) (w : World) :
  healthy w ->
  course_stored (CRN course) (store w) = false ->
  exists before after,
    fst (GetCourseCRNs w) = Ok (make before)
    /\ fst (GetCourseCRNs (snd (InsertCourse course w))) = Ok (make after)
    /\ Permutation after (CRN course :: before)
    /\ Sorted (fun a b => String.leb a b = true) after.
Proof.
  intros Hw Hc.
  destruct (InsertCourse_healthy_store course w Hw Hc)
    as (w' & irows & mrows & R & Hw' & C & _).
  rewrite R. cbn [snd].
  rewrite (GetCourseCRNs_answers w (healthy_answers _ Hw)).
  rewrite (GetCourseCRNs_answers w' (healthy_answers _ Hw')), C.
  eexists. eexists. split; [reflexivity|]. split; [reflexivity|].
  split; [|apply index_order_sorted].
  rewrite (Permutation_map term_crn (index_order_perm _)).
  rewrite (Permutation_map term_crn (index_order_perm (courses (store w)))).
  rewrite map_app. cbn [map row_of_course term_crn].
  symmetry. apply Permutation_cons_append.
Qed.

Lemma InsertCourse_then_GetCourseCRNs_witness :
  fst (GetCourseCRNs (snd (InsertCourse systems (snd (InsertCourse advanced fresh)))))
  = Ok (make ["202410-12345"; "202410-54321"]).
Proof.
  destruct (InsertCourse_then_GetCourseCRNs systems
              (snd (InsertCourse advanced fresh)))
    as (before & after & _ & R & _).
  - reflexivity.
  - reflexivity.
  - rewrite R. apply (f_equal (fun x => x)) in R. vm_compute in R.
    injection R as <-. reflexivity.
Defined.

Lemma filter_perm {A} (f : A -> bool) (l l' : list A) :
  Permutation l l' -> Permutation (filter f l) (filter f l').
Proof.
  induction 1 as [|x l l' _ IH|x y l|l l' l'' _ IH1 _ IH2]; simpl.
  - constructor.
  - destruct (f x); [now constructor | exact IH].
  - destruct (f x), (f y); try reflexivity. apply perm_swap.
  - now rewrite IH1.
Qed.

(** X9.  On a healthy handle, after [DeleteCourse(crn)], [GetCourseCRNs]
    returns the CRNs it returned before without [crn], each as often as
    before, in ascending order. *)
Theorem DeleteCourse_then_GetCourseCRNs (crn : string) (w : World) :
  healthy w ->
  exists before after,
    fst (GetCourseCRNs w) = Ok (make before)
    /\ fst (GetCourseCRNs (snd (DeleteCourse crn w))) = Ok (make after)
    /\ Permutation after
         (filter (fun c => negb (String.eqb c crn)) before)
    /\ Sorted (fun a b => String.leb a b = true) after.
Proof.
  intros Hw.
  destruct (DeleteCourse_healthy crn w Hw) as (w' & R & S & Hw').
  rewrite R. cbn [snd].
  rewrite (GetCourseCRNs_answers w (healthy_answers _ Hw)).
  rewrite (GetCourseCRNs_answers w' (healthy_answers _ Hw')), S.
  eexists. eexists. split; [reflexivity|]. split; [reflexivity|].
  split; [|apply index_order_sorted].
  cbn [without courses].
  rewrite (Permutation_map term_crn (index_order_perm _)), map_filter_crn.
  apply filter_perm. symmetry.
  apply (Permutation_map term_crn (index_order_perm _)).
Qed.

Lemma DeleteCourse_then_GetCourseCRNs_witness :
  fst (GetCourseCRNs (snd (DeleteCourse "202410-12345" catalog)))
  = Ok (make ["202410-54321"]).
Proof.
  destruct (DeleteCourse_then_GetCourseCRNs "202410-12345" catalog)
    as (before & after & _ & R & _).
  - reflexivity.
  - rewrite R. vm_compute in R. injection R as <-. reflexivity.
Defined.

(** X10.  On a healthy handle, for a CRN that no row of the store
    carries, [InsertCourse] followed by [DeleteCourse] of that CRN
    succeeds and leaves the three tables as they were before the
    insertion. *)
Theorem InsertCourse_then_DeleteCourse (course : Course) (w : World) :
  healthy w ->
  course_stored (CRN course) (store w) = false ->
  child_stored (CRN course) (store w) = false ->
  exists w1 w2,
    InsertCourse course w = (Ok tt, w1)
    /\ DeleteCourse (CRN course) w1 = (Ok tt, w2)
    /\ courses (store w2) = courses (store w)
    /\ instructors (store w2) = instructors (store w)
    /\ meetings (store w2) = meetings (store w).
Proof.
  intros Hw Hc Hch.
  destruct (InsertCourse_healthy_store course w Hw Hc)
    as (w1 & irows & mrows & R1 & Hw1 & C & I & _ & Iall & M & _ & Mall).
  destruct (DeleteCourse_healthy (CRN course) w1 Hw1) as (w2 & R2 & S & _).
  exists w1, w2. split; [exact R1|]. split; [exact R2|].
  rewrite S. cbn [without courses instructors meetings].
  rewrite C, I, M, !filter_app.
  unfold course_stored in Hc. unfold child_stored in Hch.
  apply orb_false_iff in Hch as [Hi Hm].
  rewrite (existsb_false_keep _ _ Hc), (existsb_false_keep _ _ Hi),
    (existsb_false_keep _ _ Hm), (filter_none _ _ Iall), (filter_none _ _ Mall).
  cbn [filter]. unfold has_crn at 1, row_of_course at 1. cbn [term_crn].
  rewrite String.eqb_refl. cbn [negb]. now rewrite !app_nil_r.
Qed.

Lemma InsertCourse_then_DeleteCourse_witness :
  exists w1 w2,
    InsertCourse systems_again (snd (InsertCourse advanced fresh))
    = (Ok tt, w1)
    /\ DeleteCourse "202410-12345" w1 = (Ok tt, w2)
    /\ courses (store w2) = courses (store (snd (InsertCourse advanced fresh))).
Proof.
  destruct (InsertCourse_then_DeleteCourse systems_again
              (snd (InsertCourse advanced fresh)))
    as (w1 & w2 & R1 & R2 & C & _); try reflexivity.
  exists w1, w2. auto.
Defined.

Lemma without_idempotent (crn : string) (st : Store) :
  without crn (without crn st) = without crn st.
Proof.
  unfold without. cbn [courses instructors meetings seq_instructors seq_meetings].
  rewrite !filter_filter_other; auto.
Qed.

(** X11.  On a healthy handle, [DeleteCourse] a second time with the same
    CRN succeeds and changes nothing in the store. *)
Theorem DeleteCourse_twice (crn : string) (w : World) :
  healthy w ->
  exists w1 w2,
    DeleteCourse crn w = (Ok tt, w1)
    /\ DeleteCourse crn w1 = (Ok tt, w2)
    /\ store w2 = store w1.
Proof.
  intros Hw.
  destruct (DeleteCourse_healthy crn w Hw) as (w1 & R1 & S1 & Hw1).
  destruct (DeleteCourse_healthy crn w1 Hw1) as (w2 & R2 & S2 & _).
  exists w1, w2. split; [exact R1|]. split; [exact R2|].
  rewrite S2, S1. apply without_idempotent.
Qed.

Lemma DeleteCourse_twice_witness :
  exists w1 w2,
    DeleteCourse "202410-12345" catalog = (Ok tt, w1)
    /\ DeleteCourse "202410-12345" w1 = (Ok tt, w2)
    /\ store w2 = store w1.
Proof. apply (DeleteCourse_twice "202410-12345" catalog). reflexivity. Defined.

(** *** InsertCourse and DeleteCourse as runs of statements *)

Lemma bind_ext {A B} (m : M A) (k k' : A -> M B) (w : World) :
  (forall a w1, k a w1 = k' a w1) -> bind m k w = bind m k' w.
Proof. intros H. unfold bind. destruct (m w) as [[a|e|p] w1]; auto. Qed.

Lemma bind_assoc {A B C} (m : M A) (k : A -> M B) (h : B -> M C) (w : World) :
  bind (bind m k) h w = bind m (fun a => bind (k a) h) w.
Proof. unfold bind. destruct (m w) as [[a|e|p] w1]; reflexivity. Qed.

Lemma bind_ret_tt (m : M unit) (w : World) :
  bind m (fun _ => ret tt) w = m w.
Proof. unfold bind, ret. destruct (m w) as [[[]|e|p] w1]; reflexivity. Qed.

Lemma run_app (a b : list dml) (w : World) :
  run (a ++ b) w = bind (run a) (fun _ => run b) w.
Proof.
  revert w. induction a as [|s a IH]; intros w; [reflexivity|].
  cbn [app run]. rewrite bind_assoc. apply bind_ext. intros _ w1. apply IH.
Qed.

Lemma insert_instructors_run (crn : string) (l : list Instructor) (w : World) :
  insert_instructors crn l w
  = run (map (fun i => InsertInstructorStmt (LastName i) (FirstName i)
                         (Email i) crn) l) w.
Proof.
  revert w. induction l as [|i l IH]; intros w; [reflexivity|].
  cbn [insert_instructors map run]. apply bind_ext. intros _ w1. apply IH.
Qed.

Lemma insert_meetings_run (crn : string) (l : list Meeting) (w : World) :
  insert_meetings crn l w
  = run (map (fun m => InsertMeetingStmt (Days m) (Building m) (Room m)
                         (Time m) crn) l) w.
Proof.
  revert w. induction l as [|i l IH]; intros w; [reflexivity|].
  cbn [insert_meetings map run]. apply bind_ext. intros _ w1. apply IH.
Qed.

(** [InsertCourse] runs its statements in the order of
    [insert_statements]. *)
Lemma InsertCourse_run (course : Course) (w : World) :
  InsertCourse course w = run (insert_statements course) w.
Proof.
  unfold InsertCourse, insert_statements. cbn [run].
  apply bind_ext. intros _ w1. rewrite run_app.
  unfold bind at 1. rewrite insert_instructors_run. unfold bind at 2.
  destruct (run _ w1) as [[[]|e|p] w2]; try reflexivity.
  rewrite bind_ret_tt. apply insert_meetings_run.
Qed.

Lemma DeleteCourse_run (crn : string) (w : World) :
  DeleteCourse crn w
  = run [DeleteCoursesStmt crn; DeleteInstructorsStmt crn;
         DeleteMeetingsStmt crn] w.
Proof. reflexivity. Qed.

Lemma db_Exec_fault (s : dml) (w : World) (e : error)
  (fs : list (option error)) :
  faults w = Some e :: fs ->
  db_Exec s w = (Fail e, mkWorld (store w) fs (log w ++ [dml_text s])).
Proof. intros H. unfold db_Exec, send. rewrite H. reflexivity. Qed.

(** A run whose statements violate no constraint stops at the first
    fault: the statements before it have taken effect, the one that
    failed has not, and none is sent after it. *)
Lemma run_fails (ss : list dml) (n : nat) (e : error)
  (fs : list (option error)) (w : World) :
  Forall always_ok ss ->
  faults w = fails_at n e fs ->
  n < List.length ss ->
  run ss w
  = (Fail e,
     mkWorld (exec_all (firstn n ss) (store w)) fs
       (log w ++ map dml_text (firstn (S n) ss))).
Proof.
  revert n w. induction ss as [|s ss IH]; intros n w Hok Hf Hn;
    [simpl in Hn; lia|].
  inversion Hok as [|? ? Hs Hss]; subst.
  destruct n as [|n].
  - cbn [run]. unfold bind. rewrite (db_Exec_fault s w e fs Hf).
    destruct ss; reflexivity.
  - cbn [run]. unfold bind.
    assert (Ha : answers_next w) by (unfold answers_next; now rewrite Hf).
    rewrite (db_Exec_answers _ _ Ha), Hs.
    rewrite (IH n); [| exact Hss | cbn [faults]; now rewrite Hf
                     | simpl in Hn; lia].
    cbn [store log firstn map exec_all fold_left].
    rewrite <- app_assoc. reflexivity.
Qed.

Lemma run_healthy (ss : list dml) (w : World) :
  Forall always_ok ss ->
  healthy w ->
  run ss w
  = (Ok tt, mkWorld (exec_all ss (store w)) [] (log w ++ map dml_text ss)).
Proof.
  revert w. induction ss as [|s ss IH]; intros w Hok Hw.
  - destruct w as [st fs lg]. unfold healthy in Hw. simpl in Hw. subst fs.
    cbn. now rewrite app_nil_r.
  - inversion Hok as [|? ? Hs Hss]; subst.
    cbn [run]. unfold bind.
    rewrite (db_Exec_answers _ _ (healthy_answers _ Hw)), Hs.
    rewrite (IH _ Hss); [|unfold healthy in *; cbn [faults]; now rewrite Hw].
    cbn [store log map exec_all fold_left].
    rewrite <- app_assoc. reflexivity.
Qed.

Lemma children_always_ok (course : Course) :
  Forall always_ok (tl (insert_statements course)).
Proof.
  unfold insert_statements. cbn [tl]. apply Forall_app. split;
    apply Forall_forall; intros s Hs; apply in_map_iff in Hs as (x & <- & _);
    intros st; reflexivity.
Qed.

Lemma deletes_always_ok (crn : string) :
  Forall always_ok [DeleteCoursesStmt crn; DeleteInstructorsStmt crn;
                    DeleteMeetingsStmt crn].
Proof. repeat constructor. Qed.

(** Child statements leave the course table. *)
Lemma exec_all_children_courses (course : Course) (n : nat) (st : Store) :
  courses (exec_all (firstn n (tl (insert_statements course))) st)
  = courses st.
Proof.
  assert (H : forall ss,
             Forall (fun s => forall st, courses (snd (exec s st)) = courses st) ss ->
             forall st, courses (exec_all ss st) = courses st).
  { induction ss as [|s ss IH]; intros Hss st0; [reflexivity|].
    inversion Hss; subst. cbn [exec_all fold_left].
    change (courses (exec_all ss (snd (exec s st0))) = courses st0).
    rewrite IH; auto. }
  apply H. apply Forall_forall. intros s Hs.
  assert (Hs' : In s (tl (insert_statements course)))
    by (rewrite <- (firstn_skipn n); apply in_or_app; now left).
  clear Hs. rename Hs' into Hs.
  unfold insert_statements in Hs. cbn [tl] in Hs.
  apply in_app_iff in Hs as [Hs|Hs];
    apply in_map_iff in Hs as (x & <- & _); reflexivity.
Qed.

(** X12.  [DeleteCourse] stops at the first statement that fails and
    returns its error: the statements before it have taken effect and
    none is sent after it.  When the first [DELETE] fails the store is as
    it was; when the second fails the course row is gone and the
    instructor and meeting rows are left; when the third fails the
    meeting rows are left. *)
Theorem DeleteCourse_first_error (crn : string) (n : nat) (e : error)
  (fs : list (option error)) (w : World) :
  faults w = fails_at n e fs ->
  n < 3 ->
  exists w',
    DeleteCourse crn w = (Fail e, w')
    /\ faults w' = fs
    /\ courses (store w')
       = (if Nat.eqb n 0 then courses (store w)
          else filter (fun r => negb (has_crn crn r)) (courses (store w)))
    /\ instructors (store w')
       = (if Nat.leb n 1 then instructors (store w)
          else filter (fun r => negb (instructor_of_crn crn r))
                 (instructors (store w)))
    /\ meetings (store w') = meetings (store w)
    /\ log w'
       = (log w
          ++ map dml_text
               (firstn (S n) [DeleteCoursesStmt crn; DeleteInstructorsStmt crn;
                              DeleteMeetingsStmt crn]))%list.
Proof.
  intros Hf Hn. rewrite DeleteCourse_run.
  rewrite (run_fails _ n e fs w (deletes_always_ok crn) Hf) by (simpl; lia).
  eexists. split; [reflexivity|].
  destruct n as [|[|[|n]]]; try lia; repeat split; reflexivity.
Qed.

Lemma DeleteCourse_first_error_witness :
  exists w',
    DeleteCourse "202410-12345"
      (mkWorld (store catalog) (fails_at 1 io_error []) [])
    = (Fail io_error, w')
    /\ course_stored "202410-12345" (store w') = false
    /\ child_stored "202410-12345" (store w') = true.
Proof.
  destruct (DeleteCourse_first_error "202410-12345" 1 io_error []
              (mkWorld (store catalog) (fails_at 1 io_error []) []))
    as (w' & R & _ & C & I & M & _).
  - reflexivity.
  - lia.
  - exists w'. split; [exact R|].
    unfold course_stored, child_stored. rewrite C, I, M. split; reflexivity.
Defined.

(** X13.  For a CRN that is not stored, [InsertCourse] stops at the first
    statement that fails and returns its error: of its statements, the
    course row first, then the instructors, then the meetings, those
    before the failure have taken effect and none is sent after it.  When
    a child statement fails, the course row stays in the store. *)
Theorem InsertCourse_first_error (course : Course) (n : nat) (e : error)
  (fs : list (option error)) (w : World) :
  course_stored (CRN course) (store w) = false ->
  faults w = fails_at n e fs ->
  n < List.length (insert_statements course) ->
  exists w',
    InsertCourse course w = (Fail e, w')
    /\ faults w' = fs
    /\ store w' = exec_all (firstn n (insert_statements course)) (store w)
    /\ log w'
       = (log w ++ map dml_text (firstn (S n) (insert_statements course)))%list
    /\ course_stored (CRN course) (store w') = negb (Nat.eqb n 0).
Proof.
  intros Hc Hf Hn. rewrite InsertCourse_run.
  change (insert_statements course)
    with (InsertCourseStmt (CRN course) (Title (Data course))
            (Subject (Data course)) (Number (Data course))
            (Description (Data course))
          :: tl (insert_statements course)) in *.
  set (children := tl (insert_statements course)) in *.
  assert (Hok : Forall always_ok children) by apply children_always_ok.
  assert (Hcs : forall n st,
             courses (exec_all (firstn n children) st) = courses st)
    by apply exec_all_children_courses.
  destruct n as [|n].
  - cbn [run]. unfold bind. rewrite (db_Exec_fault _ w e fs Hf).
    eexists. split; [reflexivity|]. cbn [faults store log firstn].
    repeat split; try reflexivity. exact Hc.
  - cbn [run]. unfold bind.
    assert (Ha : answers_next w) by (unfold answers_next; now rewrite Hf).
    rewrite (db_Exec_answers _ _ Ha). cbn [exec].
    unfold course_stored in Hc. rewrite Hc. cbn [fst snd].
    rewrite (run_fails children n e fs);
      [| exact Hok | cbn [faults]; now rewrite Hf | simpl in Hn; lia].
    eexists. split; [reflexivity|]. cbn [faults store log].
    split; [reflexivity|]. split; [|split].
    + cbn [firstn exec_all fold_left exec]. rewrite Hc. reflexivity.
    + cbn [firstn map]. now rewrite <- app_assoc.
    + unfold course_stored. rewrite Hcs. cbn [courses].
      rewrite existsb_app. simpl. unfold has_crn at 2. simpl.
      rewrite String.eqb_refl. now rewrite orb_true_r.
Qed.

Lemma InsertCourse_first_error_witness :
  exists w',
    InsertCourse systems (mkWorld empty_store (fails_at 2 io_error []) [])
    = (Fail io_error, w')
    /\ fst (GetCourse "202410-12345" w')
       = Ok (mkCourse "202410-12345"
               (mkCourseData "Introduction to Systems" "CS" "2101"
                  "Processes, memory and files"
                  [mkInstructor "Doe" "Jane" "jdoe@x.edu"] [])).
Proof.
  destruct (InsertCourse_first_error systems 2 io_error []
              (mkWorld empty_store (fails_at 2 io_error []) []))
    as (w' & R & F & S & _).
  - reflexivity.
  - reflexivity.
  - simpl. lia.
  - exists w'. split; [exact R|].
    destruct w' as [st fs lg]. cbn [faults store] in F, S. subst fs st.
    reflexivity.
Defined.

(** X14.  On a healthy handle, for a CRN that is not stored,
    [InsertCourse] succeeds and sends exactly these statements: the
    insertion of the course row, then one insertion per instructor in the
    order of the list, then one per meeting in the order of the list,
    each child tagged with the CRN of the course. *)
Theorem InsertCourse_statements (course : Course) (w : World) :
  healthy w ->
  course_stored (CRN course) (store w) = false ->
  InsertCourse course w
  = (Ok tt,
     mkWorld (exec_all (insert_statements course) (store w)) []
       (log w ++ map dml_text (insert_statements course))).
Proof.
  intros Hw Hc. rewrite InsertCourse_run.
  change (insert_statements course)
    with (InsertCourseStmt (CRN course) (Title (Data course))
            (Subject (Data course)) (Number (Data course))
            (Description (Data course))
          :: tl (insert_statements course)) in *.
  set (children := tl (insert_statements course)) in *.
  assert (Hok : Forall always_ok children) by apply children_always_ok.
  cbn [run]. unfold bind.
  rewrite (db_Exec_answers _ _ (healthy_answers _ Hw)). cbn [exec].
  unfold course_stored in Hc. rewrite Hc. cbn [fst snd].
  rewrite (run_healthy children);
    [| exact Hok | unfold healthy in *; cbn [faults]; now rewrite Hw].
  cbn [store log map exec_all fold_left exec]. rewrite Hc.
  rewrite <- app_assoc. reflexivity.
Qed.

Lemma InsertCourse_statements_witness :
  log (snd (InsertCourse systems fresh))
  = [(INSERT_COURSE_STATEMENT,
      ["202410-12345"; "Introduction to Systems"; "CS"; "2101";
       "Processes, memory and files"]);
     (INSERT_INSTUCTOR_STATEMENT,
      ["Doe"; "Jane"; "jdoe@x.edu"; "202410-12345"]);
     (INSERT_MEETING_STATEMENT,
      ["MWF"; "Hall"; "101"; "10:00-10:50"; "202410-12345"])].
Proof.
  rewrite (InsertCourse_statements systems fresh); reflexivity.
Defined.

(* ================================================================= *)
(** ** Further properties: QueryCourse *)

Lemma map_filter_commute {A B} (h : A -> B) (f : A -> bool) (g : B -> bool)
  (l : list A) :
  (forall a, f a = g (h a)) -> map h (filter f l) = filter g (map h l).
Proof.
  intros H. induction l as [|a l IH]; simpl; [reflexivity|].
  rewrite <- H. destruct (f a); simpl; now rewrite IH.
Qed.

(** X15.  On a healthy handle, under the primary key, [QueryCourse] with
    one of the keys [term_crn], [subject_code] and [course_number]
    returns, in scan order, exactly the stored courses whose CRN, subject
    or number is equal to the first value, character by character; values
    after the first are ignored. *)
Theorem QueryCourse_exact_match (key v : string) (more : list string)
  (w : World) :
  healthy w -> primary_key (store w) ->
  key = "term_crn" \/ key = "subject_code" \/ key = "course_number" ->
  exists cs w',
    QueryCourse key (v :: more) w = (Ok (make cs), w')
    /\ store w' = store w
    /\ cs = filter (fun c => String.eqb (key_field key c) v)
              (stored_courses (store w))
    /\ forall c,
         In c cs <-> In c (stored_courses (store w)) /\ key_field key c = v.
Proof.
  intros Hw Hpk Hkey.
  assert (Hf : forall (col : course_row -> string),
             course_column key = Some col ->
             (forall r, col r = key_field key (aggregate (store w) r)) ->
             exists cs w',
               QueryCourse key (v :: more) w = (Ok (make cs), w')
               /\ store w' = store w
               /\ cs = filter (fun c => String.eqb (key_field key c) v)
                         (stored_courses (store w))
               /\ forall c,
                    In c cs
                    <-> In c (stored_courses (store w)) /\ key_field key c = v).
  { intros col Hcol Hfield.
    destruct (QueryCourse_filter key (v :: more)
                (fun r => String.eqb (col r) v) (SelectCRNsWhereEq key v)
                w Hw Hpk) as (w' & R & S & _).
    - destruct Hkey as [-> | [-> | ->]]; discriminate.
    - destruct Hkey as [-> | [-> | ->]]; reflexivity.
    - cbn [query]. now rewrite Hcol.
    - eexists. exists w'. split; [exact R|]. split; [exact S|]. split.
      + unfold stored_courses. apply map_filter_commute.
        intros r. now rewrite Hfield.
      + intros c.
        apply (In_aggregates_iff (store w) _ (fun c => key_field key c = v)).
        intros r. now rewrite <- Hfield, String.eqb_eq. }
  destruct Hkey as [-> | [-> | ->]].
  - apply (Hf term_crn); reflexivity.
  - apply (Hf subject_code); reflexivity.
  - apply (Hf course_number); reflexivity.
Qed.

Lemma QueryCourse_exact_match_witness :
  exists w',
    QueryCourse "course_number" ["101"] catalog = (Ok (make [advanced]), w').
Proof.
  destruct (QueryCourse_exact_match "course_number" "101" [] catalog)
    as (cs & w' & R & _ & E & _).
  - reflexivity.
  - exact catalog_primary_key.
  - right. right. reflexivity.
  - exists w'. rewrite R, E. reflexivity.
Defined.

(** Under the primary key a CRN selects at most one course row. *)
Lemma primary_key_at_most_one (crn : string) (st : Store) :
  primary_key st ->
  filter (has_crn crn) (courses st) = []
  \/ exists r, In r (courses st) /\ term_crn r = crn
               /\ filter (has_crn crn) (courses st) = [r].
Proof.
  intros Hpk.
  destruct (filter (has_crn crn) (courses st)) as [|r rest] eqn:Hf; [now left|].
  right. exists r.
  assert (Hr : In r (filter (has_crn crn) (courses st)))
    by (rewrite Hf; now left).
  apply filter_In in Hr as [Hr Hc]. apply has_crn_eq in Hc.
  repeat split; auto.
  rewrite <- Hf, <- Hc. now apply primary_key_selects.
Qed.

(** X16.  On a healthy handle, under the primary key,
    [QueryCourse("term_crn", crn)] returns the one course that
    [GetCourse(crn)] returns, and an empty slice, not an error, where
    [GetCourse] fails for want of a row. *)
Theorem QueryCourse_term_crn_GetCourse (crn : string) (more : list string)
  (w : World) :
  healthy w -> primary_key (store w) ->
  fst (QueryCourse "term_crn" (crn :: more) w)
  = Ok (make match fst (GetCourse crn w) with
             | Ok c => [c]
             | _ => []
             end).
Proof.
  intros Hw Hpk.
  destruct (QueryCourse_filter "term_crn" (crn :: more) (has_crn crn)
              (SelectCRNsWhereEq "term_crn" crn) w Hw Hpk)
    as (w' & R & _); [discriminate | reflexivity | reflexivity |].
  rewrite R. cbn [fst]. f_equal. f_equal.
  destruct (primary_key_at_most_one crn (store w) Hpk)
    as [Hf | (r & Hr & Hc & Hf)].
  - rewrite Hf. rewrite GetCourse_missing; auto using healthy_answers.
  - rewrite Hf. destruct (GetCourse_healthy _ _ _ _ Hw Hf) as (w1 & R1 & _).
    rewrite R1. reflexivity.
Qed.

Lemma QueryCourse_term_crn_GetCourse_witness :
  fst (QueryCourse "term_crn" ["202410-00000"] catalog) = Ok (make []).
Proof.
  rewrite (QueryCourse_term_crn_GetCourse "202410-00000" [] catalog).
  - reflexivity.
  - reflexivity.
  - exact catalog_primary_key.
Defined.

(** X17.  On a healthy handle, under the primary key,
    [QueryCourse("title", "")] returns all stored courses in scan
    order. *)
Theorem QueryCourse_title_empty (more : list string) (w : World) :
  healthy w -> primary_key (store w) ->
  fst (QueryCourse "title" ("" :: more) w)
  = Ok (make (stored_courses (store w))).
Proof.
  intros Hw Hpk.
  destruct (QueryCourse_filter "title" ("" :: more) (title_like "%%")
              (SelectCRNsTitleLike "%%") w Hw Hpk)
    as (w' & R & _); [discriminate | reflexivity | |].
  { cbn [query]. now apply like_query_simple. }
  rewrite R. cbn [fst]. unfold stored_courses. f_equal. f_equal. f_equal.
  apply filter_all. apply Forall_forall. intros r _.
  unfold title_like, like.
  change (characters "%%") with [37%N; 37%N].
  apply pattern_skip.
  exists [], (characters (title r)). split; [reflexivity | apply pattern_any].
Qed.

Lemma QueryCourse_title_empty_witness :
  fst (QueryCourse "title" [""] catalog) = Ok (make [systems; advanced]).
Proof.
  rewrite (QueryCourse_title_empty [] catalog).
  - reflexivity.
  - reflexivity.
  - exact catalog_primary_key.
Defined.

(** *** Panics *)

Lemma bind_no_panic {A B} (m : M A) (k : A -> M B) (w : World) :
  panicked (fst (m w)) = false ->
  (forall a w1, m w = (Ok a, w1) -> panicked (fst (k a w1)) = false) ->
  panicked (fst (bind m k w)) = false.
Proof.
  intros Hm Hk. unfold bind. destruct (m w) as [[a|e|p] w1]; auto.
Qed.

Lemma query_no_panic (s : select) (st : Store) :
  panicked (query s st) = false.
Proof.
  destruct s; cbn [query]; try reflexivity.
  - unfold like_query. destruct (_ && _); reflexivity.
  - unfold like_query. destruct (_ && _); reflexivity.
  - destruct (course_column _); reflexivity.
Qed.

Lemma db_Query_no_panic (s : select) (w : World) :
  panicked (fst (db_Query s w)) = false.
Proof.
  unfold db_Query, send. destruct (hd None (faults w)); [reflexivity|].
  apply query_no_panic.
Qed.

Ltac scan_cases :=
  repeat match goal with
         | |- context [match ?x with _ => _ end] => destruct x
         end;
  reflexivity.

Lemma scan_course_no_panic (r : row) : panicked (scan_course r) = false.
Proof. unfold scan_course. scan_cases. Qed.

Lemma scan_crn_no_panic (r : row) : panicked (scan_crn r) = false.
Proof. unfold scan_crn. scan_cases. Qed.

Lemma scan_instructor_no_panic (r : row) :
  panicked (scan_instructor r) = false.
Proof. unfold scan_instructor. scan_cases. Qed.

Lemma scan_meeting_no_panic (r : row) : panicked (scan_meeting r) = false.
Proof. unfold scan_meeting. scan_cases. Qed.

Lemma instructor_rows_no_panic (rows : list row) (acc : list Instructor) :
  panicked (instructor_rows rows acc) = false.
Proof.
  revert acc. induction rows as [|r rows IH]; intros acc; [reflexivity|].
  cbn [instructor_rows]. pose proof (scan_instructor_no_panic r) as H.
  destruct (scan_instructor r) as [[[[id l] f] e]|e|p];
    [apply IH | reflexivity | discriminate H].
Qed.

Lemma meeting_rows_no_panic (rows : list row) (acc : list Meeting) :
  panicked (meeting_rows rows acc) = false.
Proof.
  revert acc. induction rows as [|r rows IH]; intros acc; [reflexivity|].
  cbn [meeting_rows]. pose proof (scan_meeting_no_panic r) as H.
  destruct (scan_meeting r) as [[[[[id d] b] rm] t]|e|p];
    [apply IH | reflexivity | discriminate H].
Qed.

(** [GetCourse] does not panic. *)
Lemma GetCourse_no_panic (crn : string) (w : World) :
  panicked (fst (GetCourse crn w)) = false.
Proof.
  unfold GetCourse. apply bind_no_panic.
  { unfold db_QueryRow. destruct (db_Query (SelectCourse crn) w). reflexivity. }
  intros r w1 H1.
  assert (Hr : panicked r = false).
  { unfold db_QueryRow in H1.
    pose proof (db_Query_no_panic (SelectCourse crn) w) as Hq.
    destruct (db_Query (SelectCourse crn) w) as [q w0].
    injection H1 as <- _. exact Hq. }
  apply bind_no_panic.
  { unfold lift. cbn [fst]. destruct r as [[|first rest]|e|p]; try reflexivity.
    - apply scan_course_no_panic.
    - discriminate Hr. }
  intros [[[[c t] sj] n] d] w2 _.
  apply bind_no_panic; [apply db_Query_no_panic | intros irows w3 _].
  apply bind_no_panic; [apply instructor_rows_no_panic | intros ins w4 _].
  apply bind_no_panic; [apply db_Query_no_panic | intros mrows w5 _].
  apply bind_no_panic; [apply meeting_rows_no_panic | intros ms w6 _].
  reflexivity.
Qed.

Lemma course_rows_no_panic (rows : list row) (acc : slice Course) (w : World) :
  panicked (fst (course_rows rows acc w)) = false.
Proof.
  revert acc w. induction rows as [|r rows IH]; intros acc w; [reflexivity|].
  cbn [course_rows].
  apply bind_no_panic; [apply scan_crn_no_panic | intros crn w1 _].
  apply bind_no_panic; [apply GetCourse_no_panic | intros c w2 _].
  apply IH.
Qed.

Lemma query_then_rows_no_panic (s : select) (w : World) :
  panicked (fst (bind (db_Query s)
                   (fun rows => course_rows rows (make [])) w)) = false.
Proof.
  apply bind_no_panic; [apply db_Query_no_panic|].
  intros rows w1 _. apply course_rows_no_panic.
Qed.

(** X18.  [QueryCourse] panics exactly when the key is whitelisted and
    the values are fewer than the [switch] indexes for it: two for
    [subject-number], one for every other key.  When it panics, nothing
    has been sent and the world is as it was; [GetCourse], which it
    calls, does not panic. *)
Theorem QueryCourse_panics_iff (key : string) (values : list string)
  (w : World) :
  (panicked (fst (QueryCourse key values w)) = true
   <-> map_lookup key QueryableKeys <> None
       /\ List.length values < values_needed key)
  /\ (panicked (fst (QueryCourse key values w)) = false
      \/ snd (QueryCourse key values w) = w).
Proof.
  rewrite QueryCourse_unfold.
  destruct (map_lookup key QueryableKeys) as [label|].
  2:{ split; [|now left]. split; [discriminate | intros [H _]; congruence]. }
  assert (Hyes : forall P : Prop, P -> (true = true <-> Some label <> None /\ P))
    by (intros P HP; split; [intros _; split; [discriminate | exact HP] | reflexivity]).
  assert (Hno : forall (P : Prop) b, b = false -> ~ P ->
                 (b = true <-> Some label <> None /\ P))
    by (intros P b -> HP; split; [discriminate | intros [_ H]; contradiction]).
  unfold predicate_query, values_needed.
  destruct (String.eqb key "title") eqn:T.
  - apply String.eqb_eq in T. subst key. cbn [String.eqb Ascii.eqb Bool.eqb].
    destruct values as [|v0 more].
    + split; [apply Hyes; simpl; lia | now right].
    + split; [|left; apply query_then_rows_no_panic].
      apply Hno; [apply query_then_rows_no_panic | simpl; lia].
  - destruct (String.eqb key "subject-number").
    + destruct values as [|v0 [|v1 more]].
      * split; [apply Hyes; simpl; lia | now right].
      * split; [apply Hyes; simpl; lia | now right].
      * split; [|left; apply query_then_rows_no_panic].
        apply Hno; [apply query_then_rows_no_panic | simpl; lia].
    + destruct values as [|v0 more].
      * split; [apply Hyes; simpl; lia | now right].
      * split; [|left; apply query_then_rows_no_panic].
        apply Hno; [apply query_then_rows_no_panic | simpl; lia].
Qed.

Lemma QueryCourse_panics_iff_witness :
  panicked (fst (QueryCourse "subject-number" ["CS"; "101"] catalog)) = false.
Proof.
  destruct (QueryCourse_panics_iff "subject-number" ["CS"; "101"] catalog)
    as [[H _] _].
  destruct (panicked (fst (QueryCourse "subject-number" ["CS"; "101"] catalog)));
    [|reflexivity].
  destruct (H eq_refl) as [_ Hl]. vm_compute in Hl. lia.
Defined.

(** *** The statements sent *)

Lemma sends_ret {A} (P : string * list string -> Prop) (a : A) :
  sends P (ret a).
Proof. intros w. exists []. simpl. now rewrite app_nil_r. Qed.

Lemma sends_lift {A} (P : string * list string -> Prop) (r : res A) :
  sends P (lift r).
Proof. intros w. exists []. simpl. now rewrite app_nil_r. Qed.

Lemma sends_bind {A B} (P : string * list string -> Prop) (m : M A)
  (k : A -> M B) :
  sends P m -> (forall a, sends P (k a)) -> sends P (bind m k).
Proof.
  intros Hm Hk w. unfold bind. destruct (Hm w) as (n1 & E1 & F1).
  destruct (m w) as [[a|e|p] w1]; cbn [snd] in *; eauto.
  destruct (Hk a w1) as (n2 & E2 & F2).
  exists (n1 ++ n2)%list. rewrite E2, E1, app_assoc. split; [reflexivity|].
  apply Forall_app. auto.
Qed.

Lemma sends_db_Query (P : string * list string -> Prop) (s : select) :
  P (select_text s) -> sends P (db_Query s).
Proof.
  intros H w. exists [select_text s]. split; [|now constructor].
  unfold db_Query, send. destruct (hd None (faults w)); reflexivity.
Qed.

Lemma sends_GetCourse (crn : string) : sends query_text_only (GetCourse crn).
Proof.
  unfold GetCourse. apply sends_bind.
  { intros w. destruct (sends_db_Query query_text_only (SelectCourse crn)) with (w := w)
      as (new & E & F).
    - unfold query_text_only. simpl. tauto.
    - exists new. split; [|exact F]. unfold db_QueryRow.
      destruct (db_Query (SelectCourse crn) w). exact E. }
  intros r. apply sends_bind; [apply sends_lift | intros [[[[c t] sj] n] d]].
  apply sends_bind; [|intros irows].
  { apply sends_db_Query. unfold query_text_only. simpl. tauto. }
  apply sends_bind; [apply sends_lift | intros ins].
  apply sends_bind; [|intros mrows].
  { apply sends_db_Query. unfold query_text_only. simpl. tauto. }
  apply sends_bind; [apply sends_lift | intros ms; apply sends_ret].
Qed.

Lemma sends_course_rows (rows : list row) (acc : slice Course) :
  sends query_text_only (course_rows rows acc).
Proof.
  revert acc. induction rows as [|r rows IH]; intros acc; [apply sends_ret|].
  cbn [course_rows].
  apply sends_bind; [apply sends_lift | intros crn].
  apply sends_bind; [apply sends_GetCourse | intros c; apply IH].
Qed.

Lemma map_lookup_whitelist (key label : string) :
  map_lookup key QueryableKeys = Some label ->
  key = "term_crn" \/ key = "title" \/ key = "subject_code"
  \/ key = "course_number" \/ key = "subject-number".
Proof.
  unfold QueryableKeys, map_lookup.
  repeat match goal with
         | |- context [String.eqb ?k key] =>
             destruct (String.eqb k key) eqn:?E;
             [apply String.eqb_eq in E; subst; tauto | clear E]
         end.
  discriminate.
Qed.

(** X19.  Whatever the key and the values, every statement [QueryCourse]
    sends has one of eight fixed texts: the key reaches the text of a
    statement only when it is one of the three whitelisted column names,
    and the values are passed as bound arguments only. *)
Theorem QueryCourse_statement_texts (key : string) (values : list string)
  (w : World) :
  exists new,
    log (snd (QueryCourse key values w)) = (log w ++ new)%list
    /\ Forall (fun entry => In (fst entry) query_texts) new.
Proof.
  revert w. change (sends query_text_only (QueryCourse key values)).
  rewrite QueryCourse_unfold.
  destruct (map_lookup key QueryableKeys) as [label|] eqn:L;
    [|apply sends_lift].
  apply sends_bind; [|intros rows; apply sends_course_rows].
  unfold predicate_query.
  destruct (String.eqb key "title") eqn:T.
  { apply sends_bind; [apply sends_lift | intros v0].
    apply sends_db_Query. unfold query_text_only. simpl. tauto. }
  destruct (String.eqb key "subject-number") eqn:SN.
  { apply sends_bind; [apply sends_lift | intros v0].
    apply sends_bind; [apply sends_lift | intros v1].
    apply sends_db_Query. unfold query_text_only. simpl. tauto. }
  apply sends_bind; [apply sends_lift | intros v0].
  apply sends_db_Query. unfold query_text_only.
  apply map_lookup_whitelist in L.
  destruct L as [-> | [-> | [-> | [-> | ->]]]];
    try discriminate; simpl; tauto.
Qed.

(* ================================================================= *)
(** ** Further properties: the case of letters *)

Lemma to_lower_branches (a : ascii) :
  is_continuation (byte (to_lower a)) = is_continuation (byte a)
  /\ (192 <=? byte (to_lower a))%N = (192 <=? byte a)%N
  /\ Ascii.eqb (to_lower a) zero = Ascii.eqb a zero
  /\ (is_continuation (byte a) = true \/ (192 <=? byte a)%N = true ->
      to_lower a = a).
Proof.
  destruct a as [[] [] [] [] [] [] [] []];
    (split; [reflexivity|]); (split; [reflexivity|]);
    (split; [reflexivity|]);
    intros [H | H]; try discriminate H; reflexivity.
Qed.

Lemma lower_char_high (c : N) : (128 <= c)%N -> lower_char c = c.
Proof. intros H. destruct (lower_char_spec c) as [[? ?] | [_ E]]; [lia | exact E]. Qed.

Lemma c_string_fold (s : string) : c_string (fold_case s) = fold_case (c_string s).
Proof.
  induction s as [|a s IH]; [reflexivity|]. cbn [fold_case c_string].
  destruct (to_lower_branches a) as (_ & _ & E & _). rewrite E.
  destruct (Ascii.eqb a zero); [reflexivity|]. cbn [fold_case]. now rewrite IH.
Qed.

Lemma utf8_chars_fold (pending : option N) (s : string) :
  utf8_chars pending (fold_case s) = map lower_char (utf8_chars pending s).
Proof.
  revert pending. induction s as [|a s IH]; intros pending.
  - destruct pending as [c|]; [|reflexivity]. cbn.
    now rewrite (lower_char_high _ (utf8_fixup_high c)).
  - cbn [fold_case utf8_chars].
    destruct (to_lower_branches a) as (Ec & El & _ & Eh).
    rewrite Ec, El.
    destruct pending as [c|].
    + destruct (is_continuation (byte a)) eqn:C.
      * rewrite (Eh (or_introl eq_refl)). apply IH.
      * destruct (192 <=? byte a)%N eqn:L; cbn [map];
          rewrite (lower_char_high _ (utf8_fixup_high c)).
        -- rewrite (Eh (or_intror eq_refl)). now rewrite IH.
        -- now rewrite byte_to_lower, IH.
    + destruct (192 <=? byte a)%N eqn:L.
      * rewrite (Eh (or_intror eq_refl)). apply IH.
      * cbn [map]. now rewrite byte_to_lower, IH.
Qed.

Lemma characters_fold (s : string) :
  characters (fold_case s) = map lower_char (characters s).
Proof.
  unfold characters. rewrite c_string_fold. apply utf8_chars_fold.
Qed.

Lemma lower_char_wildcard (c : N) :
  (lower_char c =? 37)%N = (c =? 37)%N
  /\ (lower_char c =? 95)%N = (c =? 95)%N.
Proof.
  split; apply eq_true_iff_eq; rewrite !N.eqb_eq;
    destruct (lower_char_spec c) as [[? ?] | [? ?]]; lia.
Qed.

Lemma same_char_lower (c c2 : N) :
  same_char (lower_char c) c2 = same_char c c2.
Proof.
  apply eq_true_iff_eq. rewrite !same_char_true.
  destruct (lower_char_spec c) as [[? ?] | [? ?]];
    destruct (lower_char_spec c2) as [[? ?] | [? ?]];
    destruct (lower_char_spec (lower_char c)) as [[? ?] | [? ?]]; lia.
Qed.

(** [LIKE] does not see the case of the ASCII letters of the pattern. *)
Lemma pattern_match_lower (p t : list N) :
  pattern_match (map lower_char p) t = pattern_match p t.
Proof.
  revert t. induction p as [|c p IH]; intros t; [reflexivity|].
  cbn [map]. destruct (lower_char_wildcard c) as [Hp Hu].
  destruct (c =? 37)%N eqn:Ep.
  - apply N.eqb_eq in Ep. subst c. change (lower_char 37) with 37%N.
    induction t as [|d t IHt].
    + rewrite !pattern_percent, IH. reflexivity.
    + rewrite (pattern_percent (map lower_char p)), (pattern_percent p), IH, IHt.
      reflexivity.
  - destruct t as [|d t].
    + rewrite !pattern_literal_end; congruence.
    + rewrite !pattern_literal by congruence.
      now rewrite Hu, same_char_lower, IH.
Qed.

Lemma like_fold_pattern (p t : string) : like (fold_case p) t = like p t.
Proof. unfold like. rewrite characters_fold. apply pattern_match_lower. Qed.

Lemma fold_case_wrapped (s : string) :
  ("%" ++ fold_case s ++ "%")%string = fold_case ("%" ++ s ++ "%").
Proof.
  change ("%" ++ s ++ "%")%string
    with (String percent (s ++ String percent EmptyString)).
  change ("%" ++ fold_case s ++ "%")%string
    with (String percent (fold_case s ++ String percent EmptyString)).
  cbn [fold_case]. change (to_lower percent) with percent. f_equal.
  induction s as [|c s IH]; [reflexivity|].
  cbn [fold_case String.append]. now rewrite IH.
Qed.

Lemma length_fold_case (s : string) :
  String.length (fold_case s) = String.length s.
Proof. induction s as [|a s IH]; simpl; congruence. Qed.

Lemma QueryCourse_query_fail (key : string) (values : list string)
  (sel : select) (e : error) (w : World) :
  healthy w ->
  map_lookup key QueryableKeys <> None ->
  predicate_query key values = db_Query sel ->
  query sel (store w) = Fail e ->
  fst (QueryCourse key values w) = Fail e.
Proof.
  intros Hw Hkey Hq Hf. rewrite QueryCourse_unfold.
  destruct (map_lookup key QueryableKeys); [|congruence].
  rewrite Hq. unfold bind.
  rewrite (db_Query_answers _ _ (healthy_answers _ Hw)), Hf. reflexivity.
Qed.

(** X20.  The title search does not see the case of the ASCII letters of
    the search string: with every upper-case letter of it replaced by the
    lower-case one, [QueryCourse("title", s)] returns the same. *)
Theorem QueryCourse_title_case (s : string) (more : list string) (w : World) :
  healthy w -> primary_key (store w) ->
  fst (QueryCourse "title" (fold_case s :: more) w)
  = fst (QueryCourse "title" (s :: more) w).
Proof.
  intros Hw Hpk.
  assert (Hlike : forall r,
             title_like ("%" ++ fold_case s ++ "%") r
             = title_like ("%" ++ s ++ "%") r).
  { intros r. unfold title_like.
    now rewrite fold_case_wrapped, like_fold_pattern. }
  assert (Htc : too_complex ("%" ++ fold_case s ++ "%")
                = too_complex ("%" ++ s ++ "%")).
  { unfold too_complex. now rewrite !length_wrapped, length_fold_case. }
  assert (Hq : forall f,
             query (SelectCRNsTitleLike ("%" ++ s ++ "%")) (store w)
             = Ok (map crn_row (filter f (courses (store w)))) ->
             query (SelectCRNsTitleLike ("%" ++ fold_case s ++ "%")) (store w)
             = Ok (map crn_row (filter f (courses (store w))))).
  { intros f. cbn [query]. unfold like_query. rewrite Htc.
    destruct (_ && _); [discriminate|]. intros H. rewrite <- H.
    do 2 f_equal. apply filter_ext. exact Hlike. }
  destruct (query (SelectCRNsTitleLike ("%" ++ s ++ "%")) (store w))
    as [rows|e|p0] eqn:Q.
  - assert (Hrows : rows = map crn_row (filter (title_like ("%" ++ s ++ "%"))
                                          (courses (store w)))).
    { cbn [query] in Q. unfold like_query in Q.
      destruct (_ && _); [discriminate Q|]. now injection Q as <-. }
    subst rows.
    destruct (QueryCourse_filter "title" (s :: more)
                (title_like ("%" ++ s ++ "%"))
                (SelectCRNsTitleLike ("%" ++ s ++ "%")) w Hw Hpk)
      as (w1 & R1 & _); [discriminate | reflexivity | exact Q |].
    destruct (QueryCourse_filter "title" (fold_case s :: more)
                (title_like ("%" ++ s ++ "%"))
                (SelectCRNsTitleLike ("%" ++ fold_case s ++ "%")) w Hw Hpk)
      as (w2 & R2 & _); [discriminate | reflexivity | now apply Hq |].
    now rewrite R1, R2.
  - assert (Q' : query (SelectCRNsTitleLike ("%" ++ fold_case s ++ "%"))
                   (store w) = Fail e).
    { cbn [query] in Q |- *. unfold like_query in *. rewrite Htc.
      destruct (_ && _); [exact Q | discriminate Q]. }
    rewrite (QueryCourse_query_fail "title" (s :: more)
               (SelectCRNsTitleLike ("%" ++ s ++ "%")) e w Hw);
      [| discriminate | reflexivity | exact Q].
    rewrite (QueryCourse_query_fail "title" (fold_case s :: more)
               (SelectCRNsTitleLike ("%" ++ fold_case s ++ "%")) e w Hw);
      [reflexivity | discriminate | reflexivity | exact Q'].
  - pose proof (query_no_panic (SelectCRNsTitleLike ("%" ++ s ++ "%")) (store w))
      as H. rewrite Q in H. discriminate H.
Qed.

Lemma QueryCourse_title_case_witness :
  fst (QueryCourse "title" ["advanced"] catalog)
  = fst (QueryCourse "title" ["ADVANCED"] catalog).
Proof.
  apply (QueryCourse_title_case "ADVANCED" [] catalog).
  - reflexivity.
  - exact catalog_primary_key.
Defined.

(* ================================================================= *)
(** ** Further properties: OpenDatabase and Init *)

(** X21.  [OpenDatabase] sleeps at most one second in all, and it returns
    an error only after it has slept that second: ten times the base
    delay of 100 milliseconds. *)
Theorem OpenDatabase_total_sleep (sql_Open : nat -> Handle + error)
  (db : option Handle) :
  (0 <= total_sleep (snd (OpenDatabase sql_Open db)) <= 1000000000)%Z
  /\ (snd (fst (OpenDatabase sql_Open db)) = None
      \/ total_sleep (snd (OpenDatabase sql_Open db)) = 1000000000%Z).
Proof.
  unfold OpenDatabase, maxRetries. cbn [open_loop].
  destruct (sql_Open 0); [split; [cbn; lia | now left]|].
  destruct (sql_Open 1); [split; [cbn; lia | now left]|].
  destruct (sql_Open 2); [split; [cbn; lia | now left]|].
  destruct (sql_Open 3); [split; [cbn; lia | now left]|].
  destruct (sql_Open 4); (split; [cbn; lia|]); [now left | now right].
Qed.

Lemma OpenDatabase_result (sql_Open : nat -> Handle + error)
  (db : option Handle) :
  (exists h, fst (OpenDatabase sql_Open db) = (Some h, None))
  \/ (exists e, fst (OpenDatabase sql_Open db) = (None, Some e)).
Proof.
  unfold OpenDatabase, maxRetries. cbn [open_loop].
  destruct (sql_Open 0); [left; eexists; reflexivity|].
  destruct (sql_Open 1); [left; eexists; reflexivity|].
  destruct (sql_Open 2); [left; eexists; reflexivity|].
  destruct (sql_Open 3); [left; eexists; reflexivity|].
  destruct (sql_Open 4); [left | right]; eexists; reflexivity.
Qed.

(** X22.  [OpenDatabase] returns either a handle and no error or no
    handle and an error, whatever the package variable held before: a
    handle of an earlier call is not returned when the attempts fail. *)
Theorem OpenDatabase_handle_or_error (sql_Open : nat -> Handle + error)
  (db : option Handle) :
  (exists h, fst (OpenDatabase sql_Open db) = (Some h, None))
  \/ (exists e, fst (OpenDatabase sql_Open db) = (None, Some e)).
Proof. apply OpenDatabase_result. Qed.

Lemma with_table_has (t : table) (l : list table) :
  existsb (table_eqb t) (with_table t l) = true.
Proof.
  unfold with_table. destruct (existsb (table_eqb t) l) eqn:E; [exact E|].
  rewrite existsb_app. simpl. destruct t; simpl; now rewrite orb_true_r.
Qed.

Lemma with_table_keeps (t u : table) (l : list table) :
  existsb (table_eqb u) l = true ->
  existsb (table_eqb u) (with_table t l) = true.
Proof.
  intros H. unfold with_table. destruct (existsb (table_eqb t) l); [exact H|].
  rewrite existsb_app, H. reflexivity.
Qed.

Lemma with_table_extends (t : table) (l : list table) :
  exists added, with_table t l = (l ++ added)%list.
Proof.
  unfold with_table. destruct (existsb (table_eqb t) l).
  - exists []. now rewrite app_nil_r.
  - now exists [t].
Qed.

Lemma with_table_existing (t : table) (l : list table) :
  existsb (table_eqb t) l = true -> with_table t l = l.
Proof. intros H. unfold with_table. now rewrite H. Qed.

(** [Init] on a schema whose statements do not fail, once the database
    is open. *)
Lemma Init_opened (sql_Open : nat -> Handle + error) (db : option Handle)
  (h : Handle) (s : Schema) :
  fst (OpenDatabase sql_Open db) = (Some h, None) ->
  schema_faults s = [] ->
  Init sql_Open db s
  = (InitDone h,
     mkSchema (create_all init_tables (tables s)) []
       (schema_log s ++ map create_text init_tables),
     snd (OpenDatabase sql_Open db)).
Proof.
  intros Ho Hf. unfold Init.
  destruct (OpenDatabase sql_Open db) as [r tr]. cbn [fst snd] in *. subst r.
  unfold create_table, has_table. rewrite Hf.
  cbn [hd tl tables schema_faults schema_log].
  unfold create_all, init_tables, with_table. cbn [fold_left map].
  rewrite <- !app_assoc. reflexivity.
Qed.

(** X23.  When [OpenDatabase] yields a handle and no statement fails,
    [Init] returns with that handle after the four [CREATE TABLE IF NOT
    EXISTS] statements for users, courses, instructors and meetings, in
    this order; afterwards the four tables exist, and the tables that
    existed before are kept in their places. *)
Theorem Init_creates_schema (sql_Open : nat -> Handle + error)
  (db : option Handle) (h : Handle) (s : Schema) :
  fst (OpenDatabase sql_Open db) = (Some h, None) ->
  schema_faults s = [] ->
  exists s' added,
    Init sql_Open db s = (InitDone h, s', snd (OpenDatabase sql_Open db))
    /\ (forall t, has_table t s' = true)
    /\ tables s' = (tables s ++ added)%list
    /\ schema_log s'
       = (schema_log s
          ++ [USERS_STATEMENT; COURSES_STATEMENT; INSTRUCTORS_STATEMENT;
              MEETINGS_STATEMENT])%list.
Proof.
  intros Ho Hf. rewrite (Init_opened _ _ _ _ Ho Hf).
  unfold create_all, init_tables. cbn [fold_left].
  destruct (with_table_extends UsersTable (tables s)) as (a1 & E1).
  destruct (with_table_extends CoursesTable (with_table UsersTable (tables s)))
    as (a2 & E2).
  destruct (with_table_extends InstructorsTable
              (with_table CoursesTable (with_table UsersTable (tables s))))
    as (a3 & E3).
  destruct (with_table_extends MeetingsTable
              (with_table InstructorsTable
                 (with_table CoursesTable (with_table UsersTable (tables s)))))
    as (a4 & E4).
  eexists. exists (a1 ++ a2 ++ a3 ++ a4)%list. split; [reflexivity|].
  cbn [tables schema_log]. split; [|split].
  - intros t. unfold has_table. cbn [tables].
    destruct t; repeat first [apply with_table_has | apply with_table_keeps].
  - rewrite E4, E3, E2, E1, <- !app_assoc. reflexivity.
  - reflexivity.
Qed.

Lemma Init_creates_schema_witness :
  exists tr,
    Init opens_at_last None old_schema
    = (InitDone 1,
       mkSchema [CoursesTable; UsersTable; InstructorsTable; MeetingsTable] []
         [USERS_STATEMENT; COURSES_STATEMENT; INSTRUCTORS_STATEMENT;
          MEETINGS_STATEMENT],
       tr).
Proof.
  destruct (Init_creates_schema opens_at_last None 1 old_schema)
    as (s' & added & R & _).
  - reflexivity.
  - reflexivity.
  - eexists. rewrite R. apply (f_equal (fun x => snd (fst x))) in R.
    cbn [fst snd] in R. rewrite <- R. reflexivity.
Defined.

(** X24.  [Init] on a schema that has the four tables creates nothing:
    run again, by another process or after a restart, it returns with
    the tables as they were. *)
Theorem Init_again (sql_Open : nat -> Handle + error) (db : option Handle)
  (h : Handle) (s : Schema) :
  fst (OpenDatabase sql_Open db) = (Some h, None) ->
  schema_faults s = [] ->
  (forall t, has_table t s = true) ->
  exists s',
    Init sql_Open db s = (InitDone h, s', snd (OpenDatabase sql_Open db))
    /\ tables s' = tables s.
Proof.
  intros Ho Hf Hall. rewrite (Init_opened _ _ _ _ Ho Hf).
  eexists. split; [reflexivity|]. cbn [tables].
  unfold create_all, init_tables. cbn [fold_left].
  unfold has_table in Hall.
  rewrite (with_table_existing UsersTable) by apply Hall.
  rewrite (with_table_existing CoursesTable) by apply Hall.
  rewrite (with_table_existing InstructorsTable) by apply Hall.
  now rewrite (with_table_existing MeetingsTable) by apply Hall.
Qed.

Lemma Init_again_witness :
  exists s',
    Init opens_at_once (Some 1)
      (snd (fst (Init opens_at_last None old_schema)))
    = (InitDone 1, s', [Open 0])
    /\ tables s' = [CoursesTable; UsersTable; InstructorsTable; MeetingsTable].
Proof.
  destruct (Init_again opens_at_once (Some 1) 1
              (snd (fst (Init opens_at_last None old_schema))))
    as (s' & R & T).
  - reflexivity.
  - reflexivity.
  - intros []; reflexivity.
  - exists s'. split; [exact R | exact T].
Defined.

(** X25.  When all five attempts of [OpenDatabase] fail, [Init] panics
    with the error of the last attempt; it sends no statement and the
    schema is as it was. *)
Theorem Init_open_failure (sql_Open : nat -> Handle + error)
  (db : option Handle) (e : error) (s : Schema) :
  (forall j, j < 4 -> exists e', sql_Open j = inr e') ->
  sql_Open 4 = inr e ->
  Init sql_Open db s
  = (InitPanic e, s, (backoff_trace 4 ++ [Open 4; Sleep (4 * baseDelay)])%list).
Proof.
  intros Hf Hl. unfold Init, OpenDatabase, maxRetries.
  rewrite (open_loop_failure sql_Open 4 0 e db None Hf Hl).
  rewrite backoff_trace_exact by (unfold maxRetries; lia). reflexivity.
Qed.

Lemma Init_open_failure_witness :
  fst (Init never_opens None old_schema) = (InitPanic open_error, old_schema).
Proof.
  rewrite (Init_open_failure never_opens None open_error old_schema).
  - reflexivity.
  - intros j _. exists open_error. reflexivity.
  - reflexivity.
Defined.

(** X26.  When [OpenDatabase] yields a handle and a statement of [Init]
    fails, [Init] panics with the error of that statement: the tables of
    the statements before it exist, and no statement is sent after it. *)
Theorem Init_statement_failure (sql_Open : nat -> Handle + error)
  (db : option Handle) (h : Handle) (n : nat) (e : error)
  (fs : list (option error)) (s : Schema) :
  fst (OpenDatabase sql_Open db) = (Some h, None) ->
  schema_faults s = fails_at n e fs ->
  n < 4 ->
  Init sql_Open db s
  = (InitPanic e,
     mkSchema (create_all (firstn n init_tables) (tables s)) fs
       (schema_log s ++ map create_text (firstn (S n) init_tables)),
     snd (OpenDatabase sql_Open db)).
Proof.
  intros Ho Hf Hn. unfold Init.
  destruct (OpenDatabase sql_Open db) as [r tr]. cbn [fst snd] in *. subst r.
  unfold create_table, has_table.
  destruct n as [|[|[|[|n]]]]; try lia;
    rewrite Hf; cbn [fails_at repeat app hd tl tables schema_faults schema_log];
    unfold create_all, init_tables, with_table; cbn [firstn fold_left map];
    rewrite <- ?app_assoc; reflexivity.
Qed.

Lemma Init_statement_failure_witness :
  fst (Init opens_at_once None (mkSchema [] (fails_at 2 io_error []) []))
  = (InitPanic io_error,
     mkSchema [UsersTable; CoursesTable] []
       [USERS_STATEMENT; COURSES_STATEMENT; INSTRUCTORS_STATEMENT]).
Proof.
  rewrite (Init_statement_failure opens_at_once None 1 2 io_error []
             (mkSchema [] (fails_at 2 io_error []) [])).
  - reflexivity.
  - reflexivity.
  - reflexivity.
  - lia.
Defined.

(** X27.  [Init] does not call [Exec] on a nil handle: it ends by
    returning or by a panic with an error of [sql.Open] or of a
    statement. *)
Theorem Init_never_nil (sql_Open : nat -> Handle + error)
  (db : option Handle) (s : Schema) :
  fst (fst (Init sql_Open db s)) <> InitNilHandle.
Proof.
  unfold Init.
  destruct (OpenDatabase_result sql_Open db) as [[h H] | [e H]];
    destruct (OpenDatabase sql_Open db) as [r tr]; cbn [fst] in H; subst r.
  - repeat match goal with
           | |- context [create_table ?t ?x] =>
               destruct (create_table t x) as [[?|] ?]
           end; discriminate.
  - discriminate.
Qed.
